(** * Request authorization and input governance of the certification backend

    A shallow embedding of [functions/validators.js] (sanitizer, validators,
    rate limiter, duplicate-content detector) and of the authentication and
    authorization middleware ([authenticateUser], [requireRole],
    [requireMinRole], [requireActiveCertificationRound], [requireOwnership],
    [logAudit], [authorizeRequest]), with the properties the specification
    states about them; then the validators of whole payloads, the domain
    check of the middleware and the two callable functions of the notes,
    with properties read off the code.

    Layout: the JavaScript notions the code relies on ([JS]), the validators
    ([Validators], [Assemblers]), the middleware ([Auth], [Middleware]), the
    notes ([Notes]), then the lemmas and theorems. *)

From Stdlib Require Import ZArith NArith QArith Ascii String List Lia.
From stdpp Require Import gmap strings list fin_maps pretty.

Set Warnings "-abstract-large-number".

(* ===================================================================== *)
(** ** JavaScript values, strings and regular expressions                 *)
(* ===================================================================== *)

Module JS.

(** A JavaScript string is a sequence of UTF-16 code units; a code unit is
    a natural number. [lit] reads an ASCII literal. *)
Definition lit (s : string) : list N := N_of_ascii <$> list_ascii_of_string s.
Arguments lit : simpl never.

(** Result of a call: a normal return or a thrown [Error(message)]. *)
Inductive outcome (A : Type) : Type :=
| Return (a : A)
| Throw (message : list N).
Arguments Return {A} a.
Arguments Throw {A} message.

Definition is_return {A} (o : outcome A) : bool :=
  match o with Return _ => true | Throw _ => false end.

(** Sequencing: a throw aborts what follows. *)
#[global] Instance outcome_ret : MRet outcome := λ A a, Return a.
#[global] Instance outcome_fmap : FMap outcome := λ A B f o,
  match o with
  | Return a => Return (f a)
  | Throw e => Throw e
  end.
#[global] Instance outcome_bind : MBind outcome := λ A B f o,
  match o with
  | Return a => f a
  | Throw e => Throw e
  end.

(** *** Numbers

    A finite double is a rational; [Fin 0] stands for both zeros, which
    nothing here tells apart. [Number] of a string rounds the rational its
    literal denotes to the nearest double ([round_double] below). *)
Inductive number : Type :=
| NaN
| Inf (negative : bool)
| Fin (q : Q).

Definition num_lt (a b : number) : bool :=
  match a, b with
  | NaN, _ | _, NaN => false
  | Inf true, Inf true => false
  | Inf true, _ => true
  | _, Inf true => false
  | Inf false, _ => false
  | _, Inf false => true
  | Fin x, Fin y => negb (Qle_bool y x)
  end.

Definition num_eq (a b : number) : bool :=
  match a, b with
  | Fin x, Fin y => Qeq_bool x y
  | Inf s, Inf s' => eqb s s'
  | _, _ => false
  end.

Definition isNaN (n : number) : bool :=
  match n with NaN => true | _ => false end.

Definition of_Z (z : Z) : number := Fin (inject_Z z).

(** *** Values

    [VObj id prim] is an object (plain object, array or function) with
    identity [id]; [prim] is the string its default conversion to a
    primitive yields (["[object Object]"] for a plain object). *)
Inductive value : Type :=
| VUndefined
| VNull
| VBool (b : bool)
| VNum (n : number)
| VStr (s : list N)
| VObj (id : nat) (prim : list N).

#[global] Instance Q_eq_dec : EqDecision Q.
Proof. solve_decision. Defined.
#[global] Instance number_eq_dec : EqDecision number.
Proof. solve_decision. Defined.
#[global] Instance value_eq_dec : EqDecision value.
Proof. solve_decision. Defined.

(** ToBoolean. *)
Definition truthy (v : value) : bool :=
  match v with
  | VUndefined | VNull => false
  | VBool b => b
  | VNum NaN => false
  | VNum (Inf _) => true
  | VNum (Fin q) => negb (Qeq_bool q 0)
  | VStr s => match s with [] => false | _ => true end
  | VObj _ _ => true
  end.

(** [a || b]. *)
Definition or_else (a b : value) : value := if truthy a then a else b.

(** [a === b]. *)
Definition strict_eq (a b : value) : bool :=
  match a, b with
  | VUndefined, VUndefined | VNull, VNull => true
  | VBool x, VBool y => eqb x y
  | VNum x, VNum y => num_eq x y
  | VStr x, VStr y => bool_decide (x = y)
  | VObj i _, VObj j _ => bool_decide (i = j)
  | _, _ => false
  end.

(** *** Whitespace and [String.prototype.trim] *)
Definition in_ranges (ranges : list (N * N)) (c : N) : bool :=
  existsb (λ r, (fst r <=? c)%N && (c <=? snd r)%N) ranges.

(** WhiteSpace and LineTerminator code units. *)
Definition is_whitespace : N → bool :=
  in_ranges [(0x09, 0x0D); (0x20, 0x20); (0xA0, 0xA0); (0x1680, 0x1680);
             (0x2000, 0x200A); (0x2028, 0x2029); (0x202F, 0x202F);
             (0x205F, 0x205F); (0x3000, 0x3000); (0xFEFF, 0xFEFF)]%N.

Fixpoint drop_while (p : N → bool) (s : list N) : list N :=
  match s with
  | [] => []
  | x :: rest => if p x then drop_while p rest else s
  end.

Definition trim (s : list N) : list N :=
  rev (drop_while is_whitespace (rev (drop_while is_whitespace s))).

(** *** Regular expressions (the constructs the validators use) *)
Inductive regex : Type :=
| Eps
| Chr (c : N)
| Class (negated : bool) (ranges : list (N * N))
| Seq (r1 r2 : regex)
| Star (r : regex)
| NegLookahead (r : regex)
| WordBoundary.

(** A position in the subject: the code units before it (nearest first) and
    those after it. *)
Record cursor : Type := Cursor { before : list N; after : list N }.

(** Canonicalize under the [i] flag without the [u] flag: a code unit below
    128 is upper-cased; one at or above 128 never canonicalizes to one below
    128, so against the ASCII patterns used here it is left as it is. *)
Definition canonicalize (ignoreCase : bool) (c : N) : N :=
  if ignoreCase && (97 <=? c)%N && (c <=? 122)%N then (c - 32)%N else c.

(** Membership of a class given by ranges of code units below 128: under
    the [i] flag a letter also matches through its other case. *)
Definition class_member (ignoreCase : bool) (ranges : list (N * N)) (c : N) : bool :=
  in_ranges ranges c
  || (ignoreCase
      && ((in_ranges [(97, 122)]%N c && in_ranges ranges (c - 32)%N)
          || (in_ranges [(65, 90)]%N c && in_ranges ranges (c + 32)%N))).

(** [\w] is [A-Za-z0-9_]. *)
Definition is_word_char : N → bool :=
  in_ranges [(97, 122); (65, 90); (48, 57); (95, 95)]%N.

Definition at_word_boundary (c : cursor) : bool :=
  let a := match before c with x :: _ => is_word_char x | [] => false end in
  let b := match after c with x :: _ => is_word_char x | [] => false end in
  negb (eqb a b).

(** The greedy star over a matcher [m]: it first tries one more iteration
    of [m] and, when that leads nowhere, leaves the loop through [k]; an
    iteration that consumes nothing is refused. Each iteration shortens the
    text after the cursor, which bounds the number [n] of iterations. *)
Fixpoint star_loop (m : (cursor → option cursor) → cursor → option cursor)
    (k : cursor → option cursor) (n : nat) (c : cursor) : option cursor :=
  match n with
  | O => k c
  | S n' =>
      match m (λ c', if (length (after c') <? length (after c))%nat
                     then star_loop m k n' c' else None) c with
      | Some e => Some e
      | None => k c
      end
  end.

(** Backtracking matcher in continuation-passing style: [rmatch ic r k c]
    matches [r] at [c] and hands the end position to [k]; alternatives are
    tried in the order of the ECMAScript matcher. *)
Fixpoint rmatch (ic : bool) (r : regex) (k : cursor → option cursor) (c : cursor)
  : option cursor :=
  match r with
  | Eps => k c
  | Chr x =>
      match after c with
      | y :: rest =>
          if (canonicalize ic y =? canonicalize ic x)%N
          then k (Cursor (y :: before c) rest) else None
      | [] => None
      end
  | Class neg ranges =>
      match after c with
      | y :: rest =>
          if xorb neg (class_member ic ranges y)
          then k (Cursor (y :: before c) rest) else None
      | [] => None
      end
  | Seq r1 r2 => rmatch ic r1 (rmatch ic r2 k) c
  | Star a => star_loop (rmatch ic a) k (length (after c)) c
  | NegLookahead a =>
      match rmatch ic a Some c with
      | Some _ => None
      | None => k c
      end
  | WordBoundary => if at_word_boundary c then k c else None
  end.

(** The pattern of a literal text. *)
Fixpoint Lit (s : list N) : regex :=
  match s with
  | [] => Eps
  | x :: rest => Seq (Chr x) (Lit rest)
  end.

(** [s.replace(/r/g, "")]: scanning from the left, every match is removed
    and the scan resumes after it; [skip] counts the code units of the
    current match still to drop, [bef] is the text before the position. *)
Fixpoint remove_matches (ic : bool) (r : regex) (bef s : list N) (skip : nat)
  : list N :=
  match s with
  | [] => []
  | x :: rest =>
      match skip with
      | S n => remove_matches ic r (x :: bef) rest n
      | O =>
          match rmatch ic r Some (Cursor bef s) with
          | Some e =>
              match (length s - length (after e))%nat with
              | S n => remove_matches ic r (x :: bef) rest n
              | O => x :: remove_matches ic r (x :: bef) rest 0
              end
          | None => x :: remove_matches ic r (x :: bef) rest 0
          end
      end
  end.

Definition replace_all_empty (ic : bool) (r : regex) (s : list N) : list N :=
  remove_matches ic r [] s 0.

(** *** [Number(string)] (StringToNumber) *)
Fixpoint span (p : N → bool) (s : list N) : list N * list N :=
  match s with
  | [] => ([], [])
  | x :: rest =>
      if p x then let '(a, b) := span p rest in (x :: a, b) else ([], s)
  end.

Definition digit_of (base : N) (c : N) : option N :=
  let d := if in_ranges [(48, 57)]%N c then Some (c - 48)%N
           else if in_ranges [(97, 102)]%N c then Some (c - 87)%N
           else if in_ranges [(65, 70)]%N c then Some (c - 55)%N
           else None in
  match d with
  | Some v => if (v <? base)%N then Some v else None
  | None => None
  end.

Definition is_digit (base : N) (c : N) : bool :=
  match digit_of base c with Some _ => true | None => false end.

Definition digits_value (base : N) (ds : list N) : N :=
  fold_left (λ acc c, acc * base + default 0 (digit_of base c))%N ds 0%N.

Definition nonempty (s : list N) : bool :=
  match s with [] => false | _ => true end.

(** *** Rounding to a double

    The exponent of the leading bit of [n/d], for positive [n] and [d]. *)
Definition log2_floor (n d : Z) : Z :=
  let e := (Z.log2 n - Z.log2 d)%Z in
  let below := if (0 <=? e)%Z then (n <? d * 2 ^ e)%Z else (n * 2 ^ (- e) <? d)%Z in
  if below then (e - 1)%Z else e.

(** The integer nearest to [n/d], the even one of two equally near. *)
Definition round_half_even (n d : Z) : Z :=
  let q := (n / d)%Z in
  match (2 * (n mod d) ?= d)%Z with
  | Lt => q
  | Gt => (q + 1)%Z
  | Eq => if Z.even q then q else (q + 1)%Z
  end.

(** The double nearest to a rational, ties to even (binary64: 53 significant
    bits, exponents from -1022 to 1023, subnormals below): the rational is
    rounded to a multiple of the unit in the last place, [2 ^ k]; a result
    of [2 ^ 1024] or more is an infinity, a result of zero is zero. *)
Definition round_double (x : Q) : number :=
  let n := Z.abs (Qnum x) in
  let d := Z.pos (Qden x) in
  if (n =? 0)%Z then Fin 0 else
  let k := (Z.max (log2_floor n d) (-1022) - 52)%Z in
  let m := if (0 <=? k)%Z then round_half_even n (d * 2 ^ k)
           else round_half_even (n * 2 ^ (- k)) d in
  let negative := (Qnum x <? 0)%Z in
  let overflow := if (0 <=? k)%Z then (2 ^ 1024 <=? m * 2 ^ k)%Z else false in
  if overflow then Inf negative else
  let magnitude := if (0 <=? k)%Z then inject_Z (m * 2 ^ k)
                   else Qred (Qmake m (Z.to_pos (2 ^ (- k)))) in
  Fin (if negative then - magnitude else magnitude).

(** ExponentPart, or nothing. *)
Definition parse_exponent (s : list N) : option Z :=
  match s with
  | [] => Some 0%Z
  | e :: r =>
      if ((e =? 101) || (e =? 69))%N then
        let '(neg, ds) :=
          match r with
          | 43%N :: ds => (false, ds)
          | 45%N :: ds => (true, ds)
          | _ => (false, r)
          end in
        if nonempty ds && forallb (is_digit 10) ds
        then Some (if neg then (- Z.of_N (digits_value 10 ds))%Z
                   else Z.of_N (digits_value 10 ds))
        else None
      else None
  end.

(** StrUnsignedDecimalLiteral. *)
Definition parse_unsigned_decimal (s : list N) : option number :=
  if bool_decide (s = lit "Infinity") then Some (Inf false) else
  let '(ip, r1) := span (is_digit 10) s in
  let '(dot, fp, r2) :=
    match r1 with
    | 46%N :: r => let '(fp, r2) := span (is_digit 10) r in (true, fp, r2)
    | _ => (false, [], r1)
    end in
  if nonempty ip || (dot && nonempty fp) then
    match parse_exponent r2 with
    | Some e =>
        Some (round_double (inject_Z (Z.of_N (digits_value 10 (ip ++ fp)))
                            * Qpower (10 # 1) (e - Z.of_nat (length fp))))
    | None => None
    end
  else None.

(** NonDecimalIntegerLiteral: [0x], [0o], [0b] prefixes. *)
Definition parse_non_decimal (s : list N) : option number :=
  match s with
  | 48%N :: p :: ds =>
      let base := if ((p =? 120) || (p =? 88))%N then Some 16%N
                  else if ((p =? 111) || (p =? 79))%N then Some 8%N
                  else if ((p =? 98) || (p =? 66))%N then Some 2%N
                  else None in
      match base with
      | Some b =>
          if nonempty ds && forallb (is_digit b) ds
          then Some (round_double (inject_Z (Z.of_N (digits_value b ds)))) else None
      | None => None
      end
  | _ => None
  end.

Definition negate (n : number) : number :=
  match n with
  | NaN => NaN
  | Inf s => Inf (negb s)
  | Fin q => Fin (- q)
  end.

Definition StringToNumber (s : list N) : number :=
  let t := trim s in
  match t with
  | [] => Fin 0
  | c :: r =>
      match parse_non_decimal t with
      | Some n => n
      | None =>
          let signed :=
            if (c =? 43)%N then parse_unsigned_decimal r
            else if (c =? 45)%N then negate <$> parse_unsigned_decimal r
            else parse_unsigned_decimal t in
          default NaN signed
      end
  end.

(** [Number(v)]; an object is first converted to its primitive string. *)
Definition ToNumber (v : value) : number :=
  match v with
  | VUndefined => NaN
  | VNull => Fin 0
  | VBool b => if b then Fin 1 else Fin 0
  | VNum n => n
  | VStr s => StringToNumber s
  | VObj _ prim => StringToNumber prim
  end.

(** [a < b] on strings: code units compared from the left. *)
Fixpoint str_lt (a b : list N) : bool :=
  match a, b with
  | _, [] => false
  | [], _ :: _ => true
  | x :: a', y :: b' =>
      if (x <? y)%N then true else if (y <? x)%N then false else str_lt a' b'
  end.

(** [a < b]: both operands are converted to primitives; two strings are
    compared as strings, anything else as numbers. *)
Definition less_than (a b : value) : bool :=
  let prim v := match v with VObj _ p => VStr p | _ => v end in
  match prim a, prim b with
  | VStr x, VStr y => str_lt x y
  | x, y => num_lt (ToNumber x) (ToNumber y)
  end.

(** *** Property lookup on a plain object

    An object literal or a decoded document inherits from
    [Object.prototype]: a name that is not an own property is looked up
    there, where a dozen names are bound to native functions (and
    [__proto__] to the prototype itself). *)
Definition native (id : nat) (name : string) : value :=
  VObj id (lit "function " ++ lit name ++ lit "() { [native code] }").

Definition Object_prototype : list (list N * value) :=
  [ (lit "constructor", native 0 "Object");
    (lit "__defineGetter__", native 1 "__defineGetter__");
    (lit "__defineSetter__", native 2 "__defineSetter__");
    (lit "hasOwnProperty", native 3 "hasOwnProperty");
    (lit "__lookupGetter__", native 4 "__lookupGetter__");
    (lit "__lookupSetter__", native 5 "__lookupSetter__");
    (lit "isPrototypeOf", native 6 "isPrototypeOf");
    (lit "propertyIsEnumerable", native 7 "propertyIsEnumerable");
    (lit "toString", native 8 "toString");
    (lit "valueOf", native 9 "valueOf");
    (lit "toLocaleString", native 10 "toLocaleString");
    (lit "__proto__", VObj 11 (lit "[object Object]")) ].

Fixpoint assoc (k : list N) (l : list (list N * value)) : option value :=
  match l with
  | [] => None
  | (k', v) :: rest => if bool_decide (k = k') then Some v else assoc k rest
  end.

(** [o[k]] for a plain object with own properties [o]. *)
Definition get (o : gmap (list N) value) (k : list N) : value :=
  match o !! k with
  | Some v => v
  | None => default VUndefined (assoc k Object_prototype)
  end.

End JS.

(* ===================================================================== *)
(** ** functions/validators.js                                            *)
(* ===================================================================== *)

Module Validators.
Import JS.

Record bounds : Type := Bounds { min : Z; max : Z }.

(** [VALIDATION_RULES.module]; [curriculum] has a maximum only. *)
Module module_rules.
Definition titleEn := Bounds 3 200.
Definition titleDe := Bounds 3 200.
Definition descriptionEn := Bounds 10 5000.
Definition objectiveDe := Bounds 10 5000.
Definition shortCode := Bounds 2 20.
Definition dqsNumber := Bounds 1 50.
Definition curriculum_max : Z := 10000.
End module_rules.

(** The character class of the first [replace] (flag g): code units
    0x00-0x08, 0x0B, 0x0C, 0x0E-0x1F and 0x7F. *)
Definition control_chars : regex :=
  Class false [(0x00, 0x08); (0x0B, 0x0B); (0x0C, 0x0C); (0x0E, 0x1F);
               (0x7F, 0x7F)]%N.

(** The pattern of the second [replace] (flags g and i), piece by piece:
    the text <script, a word boundary, any run of code units other than <,
    then any number of groups (a < that does not start </script>, followed
    by a run of code units other than <), then the text </script>. *)
Definition not_lt : regex := Class true [(60, 60)]%N.

Definition closing_tag : regex := Lit (lit "</script>").

Definition group : regex :=
  Seq (NegLookahead closing_tag) (Seq (Chr 60) (Star not_lt)).

Definition body : regex := Seq (Star not_lt) (Seq (Star group) closing_tag).

Definition script_tags : regex :=
  Seq (Lit (lit "<script")) (Seq WordBoundary body).

Definition sanitizeString (input : value) : list N :=
  match input with
  | VStr s =>
      take 10000
        (replace_all_empty true script_tags
           (replace_all_empty false control_chars (trim s)))
  | _ => []
  end.

Definition validateLength (value : list N) (min max : Z) (fieldName : list N)
  : outcome bool :=
  let length := Z.of_nat (length value) in
  if bool_decide (length < min)%Z then
    Throw (fieldName ++ lit " must be at least " ++ lit (pretty min)
             ++ lit " characters long")
  else if bool_decide (length > max)%Z then
    Throw (fieldName ++ lit " must not exceed " ++ lit (pretty max)
             ++ lit " characters")
  else Return true.

Definition validateRequired (value : value) (fieldName : list N)
  : outcome (list N) :=
  let sanitized := sanitizeString value in
  match sanitized with
  | [] => Throw (fieldName ++ lit " is required and cannot be empty")
  | _ => Return sanitized
  end.

(** [null] is [None]. *)
Definition validateOptional (value : value) (min max : Z) (fieldName : list N)
  : outcome (option (list N)) :=
  if negb (truthy value) then Return None else
  let sanitized := sanitizeString value in
  match sanitized with
  | [] => Return None
  | _ => _ ← validateLength sanitized min max fieldName; Return (Some sanitized)
  end.

Definition validateNumber (value : value) (min max : Z) (fieldName : list N)
  : outcome number :=
  let num := ToNumber value in
  if isNaN num then Throw (fieldName ++ lit " must be a valid number")
  else if num_lt num (of_Z min) || num_lt (of_Z max) num then
    Throw (fieldName ++ lit " must be between " ++ lit (pretty min)
             ++ lit " and " ++ lit (pretty max))
  else Return num.

Record ValidatedModule : Type := {
  titleEn : list N;
  descriptionEn : list N;
  shortCode : option (list N);
  dqsNumber : option (list N);
  bkz : option (list N);
  pricePerUE : option number;
  pricePerModule : option number;
  ue45 : option number;
  weeks : option number;
  curriculum : option (list N);
  nrMab : option (list N);
  certificate : option (list N);
}.

(** [data] is the payload object; its fields are read with [data.name]. *)
Definition validateModuleInput (data : gmap (list N) value)
  : outcome ValidatedModule :=
  let field name := get data (lit name) in
  v_titleEn ← validateRequired (field "titleEn") (lit "English Title");
  v_descriptionEn ←
    validateRequired (field "descriptionEn") (lit "English Description");
  v_shortCode ←
    validateOptional (field "shortCode") (min module_rules.shortCode)
      (max module_rules.shortCode) (lit "Short Code");
  v_dqsNumber ←
    validateOptional (field "dqsNumber") (min module_rules.dqsNumber)
      (max module_rules.dqsNumber) (lit "DQS Number");
  v_bkz ← validateOptional (field "bkz") 1 50 (lit "BKZ");
  v_pricePerUE ←
    (if truthy (field "pricePerUE")
     then Some <$> validateNumber (field "pricePerUE") 0 1000000 (lit "Price per UE")
     else Return None);
  v_pricePerModule ←
    (if truthy (field "pricePerModule")
     then Some <$> validateNumber (field "pricePerModule") 0 1000000
                     (lit "Price per Module")
     else Return None);
  v_ue45 ←
    (if truthy (field "ue45")
     then Some <$> validateNumber (field "ue45") 1 1000 (lit "UE in 45 Min")
     else Return None);
  v_weeks ←
    (if truthy (field "weeks")
     then Some <$> validateNumber (field "weeks") 1 104 (lit "Weeks")
     else Return None);
  v_curriculum ←
    validateOptional (field "curriculum") 0 module_rules.curriculum_max
      (lit "Curriculum");
  v_nrMab ← validateOptional (field "nrMab") 0 50 (lit "Nr MAB");
  v_certificate ← validateOptional (field "certificate") 0 200 (lit "Certificate");
  let validated :=
    {| titleEn := v_titleEn; descriptionEn := v_descriptionEn;
       shortCode := v_shortCode; dqsNumber := v_dqsNumber; bkz := v_bkz;
       pricePerUE := v_pricePerUE; pricePerModule := v_pricePerModule;
       ue45 := v_ue45; weeks := v_weeks; curriculum := v_curriculum;
       nrMab := v_nrMab; certificate := v_certificate |} in
  _ ← validateLength (titleEn validated) (min module_rules.titleEn)
        (max module_rules.titleEn) (lit "English Title");
  _ ← validateLength (descriptionEn validated) (min module_rules.descriptionEn)
        (max module_rules.descriptionEn) (lit "English Description");
  Return validated.

(** *** Abuse guard

    The two module-level maps are passed in and handed back; [now] is the
    value of [Date.now()] at the call. *)

(** [rateLimitStore]: key to the timestamps of the accepted calls. *)
Definition checkRateLimit (userId action : list N) (maxRequests windowMs : Z)
    (now : Z) (rateLimitStore : gmap (list N) (list Z))
  : outcome bool * gmap (list N) (list Z) :=
  let key := userId ++ lit ":" ++ action in
  match rateLimitStore !! key with
  | None => (Return true, <[key := [now]]> rateLimitStore)
  | Some stored =>
      let timestamps := filter (λ t, now - t < windowMs)%Z stored in
      if bool_decide (Z.of_nat (length timestamps) >= maxRequests)%Z then
        (Throw (lit "Rate limit exceeded. Maximum " ++ lit (pretty maxRequests)
                  ++ lit " requests per minute for " ++ action),
         rateLimitStore)
      else (Return true, <[key := timestamps ++ [now]]> rateLimitStore)
  end.

(** [recentContentHashes]: key to the time of the last accepted submission. *)
Definition checkDuplicateContent (userId content action : list N) (windowMs : Z)
    (now : Z) (recentContentHashes : gmap (list N) Z)
  : outcome bool * gmap (list N) Z :=
  let hash := userId ++ lit ":" ++ take 100 content in
  let duplicate :=
    match recentContentHashes !! hash with
    | Some lastSubmission => bool_decide (now - lastSubmission < windowMs)%Z
    | None => false
    end in
  if duplicate then
    (Throw (lit "Duplicate submission detected. Please wait before submitting identical content."),
     recentContentHashes)
  else
    (Return true,
     filter (λ entry, ¬ (now - entry.2 > windowMs * 2)%Z)
       (<[hash := now]> recentContentHashes)).

End Validators.

(* ===================================================================== *)
(** ** Authentication and authorization middleware                        *)
(* ===================================================================== *)

Module Auth.
Import JS.

Module ROLES.
Definition SYSADMIN : list N := lit "sysadmin".
Definition PROGRAM_OWNER : list N := lit "programOwner".
Definition OPERATIONS : list N := lit "operations".
(** [Object.values(ROLES)] *)
Definition values : list (list N) := [SYSADMIN; PROGRAM_OWNER; OPERATIONS].
End ROLES.

(** An object literal: its own properties; lookups go through [JS.get]. *)
Definition ROLE_HIERARCHY : gmap (list N) value :=
  list_to_map [ (ROLES.SYSADMIN, VNum (of_Z 3));
                (ROLES.PROGRAM_OWNER, VNum (of_Z 2));
                (ROLES.OPERATIONS, VNum (of_Z 1)) ].

(** *** The document store and the world around a call

    A document is its field map; a collection lists its documents (id and
    data) in the order queries return them. Reads are answered from the
    store; a write consults [write_faults], the fate of the coming writes
    ([Some e]: the store rejects the write with error [e]). The audit-log
    collection, the only one written here, is kept apart in [auditLogs] with
    typed entries. Every store operation is recorded in [ops]; [console] is
    the diagnostic channel. *)
Record AuditLogEntry : Type := {
  e_action : list N;
  e_userId : list N;
  e_userEmail : value;
  e_userRole : list N;
  e_resourceType : list N;
  e_resourceId : list N;
  e_details : gmap (list N) value;
  e_ipAddress : value;
}.

Inductive store_op : Type :=
| OpGet (collection id : list N)
| OpQuery (collection field : list N) (v : value) (limit : nat)
| OpAdd (collection : list N).

Record world : Type := World {
  store : gmap (list N) (list (list N * gmap (list N) value));
  auditLogs : list AuditLogEntry;
  write_faults : list (option (list N));
  ops : list store_op;
  console : list (list N * list N);
}.

Definition M (A : Type) : Type := world → outcome A * world.

#[global] Instance M_ret : MRet M := λ A a w, (Return a, w).
#[global] Instance M_fmap : FMap M := λ A B f m w,
  match m w with
  | (Return a, w') => (Return (f a), w')
  | (Throw e, w') => (Throw e, w')
  end.
#[global] Instance M_bind : MBind M := λ A B f m w,
  match m w with
  | (Return a, w') => f a w'
  | (Throw e, w') => (Throw e, w')
  end.

Definition throw {A} (message : list N) : M A := λ w, (Throw message, w).

(** [try { body } catch (error) { handler(error) }] *)
Definition try_catch {A} (body : M A) (handler : list N → M A) : M A := λ w,
  match body w with
  | (Return a, w') => (Return a, w')
  | (Throw e, w') => handler e w'
  end.

Definition record (o : store_op) (w : world) : world :=
  World (store w) (auditLogs w) (write_faults w) (ops w ++ [o]) (console w).

Definition documents (w : world) (collection : list N)
  : list (list N * gmap (list N) value) :=
  default [] (store w !! collection).

Fixpoint find_doc (id : list N) (docs : list (list N * gmap (list N) value))
  : option (gmap (list N) value) :=
  match docs with
  | [] => None
  | (i, d) :: rest => if bool_decide (i = id) then Some d else find_doc id rest
  end.

(** [collection(c).doc(id).get()]: [None] when [exists] is false. *)
Definition doc_get (collection id : list N) : M (option (gmap (list N) value)) :=
  λ w, (Return (find_doc id (documents w collection)),
        record (OpGet collection id) w).

(** [collection(c).where(field, "==", v).limit(n).get()]: the data of the
    first [n] documents whose field is identical to [v]. *)
Definition matches (field : list N) (v : value) (d : gmap (list N) value) : bool :=
  match d !! field with
  | Some x => strict_eq x v
  | None => false
  end.

Definition query_eq (collection field : list N) (v : value) (limit : nat)
  : M (list (gmap (list N) value)) :=
  λ w, (Return (take limit (List.filter (matches field v)
                              (snd <$> documents w collection))),
        record (OpQuery collection field v limit) w).

(** [collection("auditLogs").add(entry)] *)
Definition audit_add (entry : AuditLogEntry) : M unit := λ w,
  let w := record (OpAdd (lit "auditLogs")) w in
  match write_faults w with
  | Some e :: rest =>
      (Throw e, World (store w) (auditLogs w) rest (ops w) (console w))
  | None :: rest =>
      (Return (), World (store w) (auditLogs w ++ [entry]) rest (ops w) (console w))
  | [] =>
      (Return (), World (store w) (auditLogs w ++ [entry]) [] (ops w) (console w))
  end.

(** [console.error(label, error)] *)
Definition console_error (label error : list N) : M unit := λ w,
  (Return (),
   World (store w) (auditLogs w) (write_faults w) (ops w)
         (console w ++ [(label, error)])).

(** *** Requests and user contexts *)
Record Auth : Type := { uid : list N; token : gmap (list N) value }.
Record Request : Type := { auth : option Auth }.

Record UserContext : Type := {
  userId : list N;
  email : value;
  role : list N;
  displayName : value;
  active : value;
}.

(** The member of [Object.values(ROLES)] that [v] is, if any. *)
Definition known_role (v : value) : option (list N) :=
  match v with
  | VStr r => if bool_decide (r ∈ ROLES.values) then Some r else None
  | _ => None
  end.

Definition authenticateUser (request : Request) : M UserContext :=
  match auth request with
  | None => throw (lit "Unauthorized: No authentication provided")
  | Some a =>
      let userId := uid a in
      let email := get (token a) (lit "email") in
      userDoc ← doc_get (lit "users") userId;
      match userDoc with
      | None => throw (lit "Unauthorized: User not found in system")
      | Some userData =>
          if negb (truthy (get userData (lit "active"))) then
            throw (lit "Unauthorized: User account is deactivated")
          else
            let role := or_else (get (token a) (lit "role"))
                                (get userData (lit "role")) in
            match (if truthy role then known_role role else None) with
            | None => throw (lit "Unauthorized: Invalid user role")
            | Some r =>
                mret {| userId := userId; email := email; role := r;
                        displayName := get userData (lit "displayName");
                        active := get userData (lit "active") |}
            end
      end
  end.

(** The [requiredRoles] argument: one role or an array of roles. *)
Inductive roles_arg : Type :=
| OneRole (r : list N)
| RoleList (l : list (list N)).

(** [l.join(", ")] *)
Fixpoint join (l : list (list N)) : list N :=
  match l with
  | [] => []
  | [x] => x
  | x :: rest => x ++ lit ", " ++ join rest
  end.

Definition requireRole (userContext : UserContext) (requiredRoles : roles_arg)
  : outcome bool :=
  let requiredRoles :=
    match requiredRoles with OneRole r => [r] | RoleList l => l end in
  if negb (bool_decide (role userContext ∈ requiredRoles)) then
    Throw (lit "Forbidden: Requires one of these roles: " ++ join requiredRoles)
  else Return true.

Definition requireMinRole (userContext : UserContext) (minRole : list N)
  : outcome bool :=
  let userLevel := or_else (get ROLE_HIERARCHY (role userContext)) (VNum (of_Z 0)) in
  let requiredLevel := or_else (get ROLE_HIERARCHY minRole) (VNum (of_Z 0)) in
  if less_than userLevel requiredLevel then
    Throw (lit "Forbidden: Requires minimum role: " ++ minRole)
  else Return true.

Definition requireActiveCertificationRound : M (gmap (list N) value) :=
  roundsSnapshot ←
    query_eq (lit "certificationRounds") (lit "status") (VStr (lit "active")) 1;
  match roundsSnapshot with
  | [] => throw (lit "Forbidden: No active certification round. Changes are not allowed.")
  | d :: _ => mret d
  end.

(** [ownerField] is [None] when the argument is left out. *)
Definition requireOwnership (userContext : UserContext)
    (resourceType resourceId : list N) (ownerField : option (list N)) : M bool :=
  let ownerField := default (lit "createdBy") ownerField in
  if bool_decide (role userContext = ROLES.SYSADMIN) then mret true else
  resourceDoc ← doc_get resourceType resourceId;
  match resourceDoc with
  | None => throw (resourceType ++ lit " not found")
  | Some resourceData =>
      if negb (strict_eq (get resourceData ownerField) (VStr (userId userContext)))
      then throw (lit "Forbidden: You do not own this " ++ resourceType)
      else mret true
  end.

Definition logAudit (action : list N) (userContext : UserContext)
    (resourceType resourceId : list N) (details : gmap (list N) value) : M unit :=
  try_catch
    (audit_add {| e_action := action;
                  e_userId := userId userContext;
                  e_userEmail := email userContext;
                  e_userRole := role userContext;
                  e_resourceType := resourceType;
                  e_resourceId := resourceId;
                  e_details := details;
                  e_ipAddress := or_else (get details (lit "ipAddress")) VNull |})
    (λ error, console_error (lit "Audit log failed:") error).

Record ownership : Type := {
  resourceType : list N;
  resourceId : list N;
  ownerField : option (list N);
}.

(** The [options] object; an option left out is its default ([None],
    [false]). *)
Record Options : Type := {
  opt_requireRoles : option roles_arg;
  opt_requireMinRole : option (list N);
  opt_requireActiveRound : bool;
  opt_requireOwnership : option ownership;
}.

Record Authorized : Type := {
  userContext : UserContext;
  activeRound : option (gmap (list N) value);
}.

Definition lift {A} (o : outcome A) : M A := λ w, (o, w).

(** Truthiness of the two role options: an empty string is falsy, an array
    is truthy. *)
Definition roles_given (r : roles_arg) : bool :=
  match r with OneRole s => nonempty s | RoleList _ => true end.

Definition authorizeRequest (request : Request) (options : Options) : M Authorized :=
  (* Step 1: Authenticate user *)
  userContext ← authenticateUser request;
  (* Step 2: Check role requirements *)
  _ ← match opt_requireRoles options with
      | Some requireRoles =>
          if roles_given requireRoles
          then lift (requireRole userContext requireRoles) else mret true
      | None => mret true
      end;
  _ ← match opt_requireMinRole options with
      | Some minRole =>
          if nonempty minRole
          then lift (requireMinRole userContext minRole) else mret true
      | None => mret true
      end;
  (* Step 3: Check certification round status *)
  activeRound ←
    (if opt_requireActiveRound options
     then Some <$> requireActiveCertificationRound
     else mret None);
  (* Step 4: Check ownership *)
  _ ← match opt_requireOwnership options with
      | Some o =>
          requireOwnership userContext (resourceType o) (resourceId o) (ownerField o)
      | None => mret true
      end;
  mret {| userContext := userContext; activeRound := activeRound |}.

End Auth.

(* ===================================================================== *)
(** ** The specification's reading of the same operations                 *)
(* ===================================================================== *)

(** Definitions that follow the specification's wording, to be compared
    with the code above. *)
Module Spec.
Import JS Validators Auth.

(** The specification's error classes are the messages of the plain
    [Error]s the code throws. *)
Definition ForbiddenError (detail : list N) : list N := lit "Forbidden: " ++ detail.

Definition NotFoundError (resourceType : list N) : list N :=
  resourceType ++ lit " not found".

Definition RateLimitError (maxRequests : Z) (action : list N) : list N :=
  lit "Rate limit exceeded. Maximum " ++ lit (pretty maxRequests)
    ++ lit " requests per minute for " ++ action.

Definition DuplicateSubmissionError : list N :=
  lit "Duplicate submission detected. Please wait before submitting identical content.".

(** Control characters: ordinal ranges 0x00-0x08, 0x0B-0x0C, 0x0E-0x1F, 0x7F. *)
Definition is_control_char : N → bool :=
  in_ranges [(0x00, 0x08); (0x0B, 0x0C); (0x0E, 0x1F); (0x7F, 0x7F)]%N.

(** [s] starts with the text [p] (letter case ignored under [ic]); the
    result is what follows it. *)
Fixpoint starts_with (ic : bool) (p s : list N) : option (list N) :=
  match p, s with
  | [], _ => Some s
  | x :: p', y :: s' =>
      if (canonicalize ic y =? canonicalize ic x)%N
      then starts_with ic p' s' else None
  | _ :: _, [] => None
  end.

(** The text after the first closing script tag in [s], if there is one. *)
Fixpoint after_closing_tag (s : list N) : option (list N) :=
  match starts_with true (lit "</script>") s with
  | Some rest => Some rest
  | None =>
      match s with
      | [] => None
      | _ :: s' => after_closing_tag s'
      end
  end.

(** Script-tag markup at the start of [s]: an opening tag (the text
    <script, any letter case, not continued by a letter, digit or
    underscore) through the first closing tag after it; the result is the
    text after the markup. *)
Definition script_element (s : list N) : option (list N) :=
  match starts_with true (lit "<script") s with
  | Some rest =>
      if match rest with x :: _ => is_word_char x | [] => false end
      then None else after_closing_tag rest
  | None => None
  end.

(** Stripping the script markup from the left; [skip] counts the code
    units of the current markup still to drop. *)
Fixpoint strip_script_elements (s : list N) (skip : nat) : list N :=
  match s with
  | [] => []
  | x :: rest =>
      match skip with
      | S n => strip_script_elements rest n
      | O =>
          match script_element s with
          | Some r =>
              match (length s - length r)%nat with
              | S n => strip_script_elements rest n
              | O => x :: strip_script_elements rest 0
              end
          | None => x :: strip_script_elements rest 0
          end
      end
  end.

(** [checkRateLimit] as the specification words it: fetch the key's list
    (an absent key has the empty list), prune what is not within the
    window, fail when the pruned count reaches the maximum, else append. *)
Definition checkRateLimit_spec (userId action : list N) (maxRequests windowMs : Z)
    (now : Z) (rateLimitStore : gmap (list N) (list Z))
  : outcome bool * gmap (list N) (list Z) :=
  let key := userId ++ lit ":" ++ action in
  let pruned :=
    filter (λ t, now - t < windowMs)%Z (default [] (rateLimitStore !! key)) in
  if bool_decide (Z.of_nat (length pruned) >= maxRequests)%Z
  then (Throw (RateLimitError maxRequests action), rateLimitStore)
  else (Return true, <[key := pruned ++ [now]]> rateLimitStore).

(** Successive calls of [checkRateLimit] for one key at the given times. *)
Fixpoint rateLimitCalls (userId action : list N) (maxRequests windowMs : Z)
    (times : list Z) (rateLimitStore : gmap (list N) (list Z))
  : list (outcome bool) * gmap (list N) (list Z) :=
  match times with
  | [] => ([], rateLimitStore)
  | now :: rest =>
      let '(o, st) :=
        checkRateLimit userId action maxRequests windowMs now rateLimitStore in
      let '(os, st') := rateLimitCalls userId action maxRequests windowMs rest st in
      (o :: os, st')
  end.

(** Successive calls of [checkDuplicateContent]: each attempt gives its
    user, content, action, window and time. *)
Fixpoint duplicateCalls (attempts : list (list N * list N * list N * Z * Z))
    (recentContentHashes : gmap (list N) Z)
  : list (outcome bool) * gmap (list N) Z :=
  match attempts with
  | [] => ([], recentContentHashes)
  | (userId, content, action, windowMs, now) :: rest =>
      let '(o, st) :=
        checkDuplicateContent userId content action windowMs now recentContentHashes in
      let '(os, st') := duplicateCalls rest st in
      (o :: os, st')
  end.

(** The certification rounds whose status is "active", in the order the
    store lists them. *)
Definition active_rounds (w : world) : list (gmap (list N) value) :=
  List.filter (λ d, bool_decide (d !! lit "status" = Some (VStr (lit "active"))))
    (snd <$> documents w (lit "certificationRounds")).

(** The role hierarchy: sysadmin 3, programOwner 2, operations 1, any
    other role 0. *)
Definition hierarchyLevel (role : list N) : Z :=
  if bool_decide (role = ROLES.SYSADMIN) then 3
  else if bool_decide (role = ROLES.PROGRAM_OWNER) then 2
  else if bool_decide (role = ROLES.OPERATIONS) then 1
  else 0.

End Spec.

Import JS Validators Auth Spec.

(* ===================================================================== *)
(** ** Auxiliary notions and sample data for the proofs                   *)
(* ===================================================================== *)

(** A continuation that refuses any position not at a [<]. *)
Definition wants_lt (k : cursor → option cursor) : Prop :=
  ∀ b x r, x ≠ 60%N → k (Cursor b (x :: r)) = None.

(** The position after the longest run of code units other than [<]. *)
Fixpoint run_end (b s : list N) : cursor :=
  match s with
  | y :: rest => if (y =? 60)%N then Cursor b s else run_end (y :: b) rest
  | [] => Cursor b s
  end.

Definition at_lt_or_end (s : list N) : Prop :=
  match s with [] => True | x :: _ => x = 60%N end.

(** Matching the closing tag and nothing after it. *)
Definition closing (c : cursor) : option cursor := rmatch true closing_tag Some c.

(** The entry [logAudit] writes. *)
Definition audit_entry (action : list N) (ctx : UserContext) (rt rid : list N)
    (details : gmap (list N) value) : AuditLogEntry :=
  {| e_action := action; e_userId := userId ctx; e_userEmail := email ctx;
     e_userRole := role ctx; e_resourceType := rt; e_resourceId := rid;
     e_details := details;
     e_ipAddress := or_else (get details (lit "ipAddress")) VNull |}.

(** The four numeric fields of a validated module, by name. *)
Definition numeric_field (f : list N) (validated : ValidatedModule) : option number :=
  if bool_decide (f = lit "pricePerUE") then pricePerUE validated
  else if bool_decide (f = lit "pricePerModule") then pricePerModule validated
  else if bool_decide (f = lit "ue45") then ue45 validated
  else weeks validated.

(** Sample data: a user context with a given role, a sysadmin caller with
    her stored profile, two certification rounds, a module owned by someone
    else, and a world holding them. *)
Definition ctx_of (r : list N) : UserContext :=
  {| userId := lit "u1"; email := VUndefined; role := r;
     displayName := VUndefined; active := VBool true |}.

Definition sysadmin_request : Request :=
  {| auth := Some {| uid := lit "admin1";
                     token := {[ lit "email" := VStr (lit "root@wbs.de") ]} |} |}.

Definition sysadmin_profile : gmap (list N) value :=
  list_to_map [ (lit "active", VBool true); (lit "role", VStr (lit "sysadmin"));
                (lit "displayName", VStr (lit "Root")) ].

Definition sysadmin_ctx : UserContext :=
  {| userId := lit "admin1"; email := VStr (lit "root@wbs.de");
     role := lit "sysadmin"; displayName := VStr (lit "Root");
     active := VBool true |}.

Definition closed_round : gmap (list N) value :=
  list_to_map [ (lit "status", VStr (lit "closed")); (lit "name", VStr (lit "2024")) ].

Definition open_round : gmap (list N) value :=
  list_to_map [ (lit "status", VStr (lit "active")); (lit "name", VStr (lit "2025")) ].

Definition foreign_module : gmap (list N) value :=
  list_to_map [ (lit "createdBy", VStr (lit "someone-else"));
                (lit "titleEn", VStr (lit "Databases")) ].

Definition world_of (rounds : list (list N * gmap (list N) value)) : world :=
  {| store := list_to_map [ (lit "users", [(lit "admin1", sysadmin_profile)]);
                            (lit "certificationRounds", rounds);
                            (lit "modules", [(lit "m1", foreign_module)]) ];
     auditLogs := []; write_faults := []; ops := []; console := [] |}.

Definition gated : Options :=
  {| opt_requireRoles := None; opt_requireMinRole := Some (lit "programOwner");
     opt_requireActiveRound := true; opt_requireOwnership := None |}.

Definition module_payload : gmap (list N) value :=
  list_to_map [ (lit "titleEn", VStr (lit "Databases"));
                (lit "descriptionEn", VStr (lit "Relational databases and SQL")) ].

(* ===================================================================== *)
(** ** functions/validators.js: the remaining validators                  *)
(* ===================================================================== *)

Module Assemblers.
Import JS Validators.

(** [VALIDATION_RULES] as the object literal it is: a number or an object
    with named properties. *)
#[local] Unset Elimination Schemes.
Inductive rules : Type :=
| Num (z : Z)
| Obj (props : list (string * rules)).
#[local] Set Elimination Schemes.

Definition VALIDATION_RULES : rules :=
  Obj [ ("module",
          Obj [ ("titleEn", Obj [("min", Num 3); ("max", Num 200)]);
                ("titleDe", Obj [("min", Num 3); ("max", Num 200)]);
                ("descriptionEn", Obj [("min", Num 10); ("max", Num 5000)]);
                ("objectiveDe", Obj [("min", Num 10); ("max", Num 5000)]);
                ("shortCode", Obj [("min", Num 2); ("max", Num 20)]);
                ("dqsNumber", Obj [("min", Num 1); ("max", Num 50)]);
                ("curriculum", Obj [("max", Num 10000)]) ]);
        ("course",
          Obj [ ("name", Obj [("min", Num 3); ("max", Num 200)]);
                ("description", Obj [("min", Num 10); ("max", Num 2000)]) ]);
        ("certificationRound",
          Obj [ ("name", Obj [("min", Num 3); ("max", Num 100)]);
                ("description", Obj [("max", Num 1000)]) ]);
        ("comment",
          Obj [ ("text", Obj [("min", Num 1); ("max", Num 2000)]) ]);
        ("user",
          Obj [ ("displayName", Obj [("min", Num 2); ("max", Num 100)]);
                ("email", Obj [("max", Num 254)]) ]) ]%string.

Definition ALLOWED_DOMAINS : list (list N) :=
  [lit "wbscodingschool.com"; lit "wbs.de"].

Fixpoint own (name : string) (props : list (string * rules)) : option rules :=
  match props with
  | [] => None
  | (k, v) :: rest => if String.eqb k name then Some v else own name rest
  end.

(** [o.name] where [o] was read from the rules ([None] is [undefined]):
    reading a property of [undefined] throws a TypeError, a number has no
    properties, an object gives its own property (none of the names read
    here is one that objects inherit). *)
Definition prop (o : option rules) (name : string) : outcome (option rules) :=
  match o with
  | None =>
      Throw (lit "Cannot read properties of undefined (reading '" ++ lit name
               ++ lit "')")
  | Some (Num _) => Return None
  | Some (Obj props) => Return (own name props)
  end.

(** [o.a.b...] *)
Fixpoint path (o : option rules) (names : list string) : outcome (option rules) :=
  match names with
  | [] => Return o
  | name :: rest => v ← prop o name; path v rest
  end.

(** A value of the rules passed as a bound: a number is that bound;
    [undefined] leaves the parameter at its default ([None]); an object, as
    a bound, compares false both ways, which is what the defaults do. *)
Definition as_bound (o : option rules) : option Z :=
  match o with
  | Some (Num z) => Some z
  | _ => None
  end.

(** [validateLength] with its default parameters: [min = 0] and
    [max = Infinity] when the argument is [None]. *)
Definition validateLength' (value : list N) (min max : option Z) (fieldName : list N)
  : outcome bool :=
  match max with
  | Some max => validateLength value (default 0%Z min) max fieldName
  | None =>
      if bool_decide (Z.of_nat (length value) < default 0 min)%Z then
        Throw (fieldName ++ lit " must be at least " ++ lit (pretty (default 0%Z min))
                 ++ lit " characters long")
      else Return true
  end.

(** [validateOptional] with its default parameters. *)
Definition validateOptional' (value : value) (min max : option Z)
    (fieldName : list N) : outcome (option (list N)) :=
  if negb (truthy value) then Return None else
  let sanitized := sanitizeString value in
  match sanitized with
  | [] => Return None
  | _ => _ ← validateLength' sanitized min max fieldName; Return (Some sanitized)
  end.

(** *** Builtins the validators rest on *)

(** WhiteSpace and LineTerminator, as ranges (the class [\s]). *)
Definition space_ranges : list (N * N) :=
  [(0x09, 0x0D); (0x20, 0x20); (0xA0, 0xA0); (0x1680, 0x1680);
   (0x2000, 0x200A); (0x2028, 0x2029); (0x202F, 0x202F);
   (0x205F, 0x205F); (0x3000, 0x3000); (0xFEFF, 0xFEFF)]%N.

(** [r+] for an [r] that consumes a code unit. *)
Definition Plus (r : regex) : regex := Seq r (Star r).

(** The class of the e-mail pattern: anything but whitespace and the at
    sign. *)
Definition not_space_at : regex := Class true (space_ranges ++ [(64, 64)]%N).

(** The e-mail pattern between its anchors: one or more of the class, an at
    sign, one or more of the class, a dot, one or more of the class. *)
Definition emailRegex : regex :=
  Seq (Plus not_space_at)
 (Seq (Chr 64)
 (Seq (Plus not_space_at)
 (Seq (Chr 46) (Plus not_space_at)))).

(** [r.test(s)] for a pattern anchored at both ends (no flags): the match
    starts at the first code unit and must end at the end of the text. *)
Definition test_anchored (r : regex) (s : list N) : bool :=
  match rmatch false r
          (λ c, match after c with [] => Some c | _ => None end) (Cursor [] s) with
  | Some _ => true
  | None => false
  end.

(** [s.split(sep)] for a separator of one code unit. *)
Fixpoint split (sep : N) (s : list N) : list (list N) :=
  match s with
  | [] => [[]]
  | x :: rest =>
      if (x =? sep)%N then [] :: split sep rest
      else match split sep rest with
           | piece :: pieces => (x :: piece) :: pieces
           | [] => [[x]]
           end
  end.

(** [a <= b] on numbers. *)
Definition less_equal (a b : number) : bool :=
  if isNaN a || isNaN b then false else negb (num_lt b a).

Definition is_string (v : value) : bool :=
  match v with VStr _ => true | _ => false end.

Section Builtins.
(** [String.prototype.toLowerCase] needs the Unicode case tables, and
    [new Date(v)] a date parser: both are taken as given. A date is its
    time value, [NaN] for an invalid date. *)
Variable toLowerCase : list N → list N.
Variable new_Date : value → number.

Definition validateEmail (email : value) : outcome (list N) :=
  match email with
  | VStr s =>
      if negb (truthy email) then Throw (lit "Email is required") else
      let trimmedEmail := toLowerCase (trim s) in
      if negb (test_anchored emailRegex trimmedEmail) then
        Throw (lit "Invalid email format")
      else
        let domain := split 64 trimmedEmail !! 1%nat in
        if negb (bool_decide (domain ∈ Some <$> ALLOWED_DOMAINS)) then
          Throw (lit "Email must be from allowed domains: "
                   ++ Auth.join ALLOWED_DOMAINS)
        else Return trimmedEmail
  | _ => Throw (lit "Email is required")
  end.

Definition validateDate (dateValue : value) (fieldName : list N) : outcome number :=
  if negb (truthy dateValue) then Throw (fieldName ++ lit " is required") else
  let date := new_Date dateValue in
  if isNaN date then Throw (fieldName ++ lit " must be a valid date")
  else Return date.

(** The allowed values are strings here. *)
Definition validateEnum (value : value) (allowedValues : list (list N))
    (fieldName : list N) : outcome JS.value :=
  if negb (bool_decide (value ∈ VStr <$> allowedValues)) then
    Throw (fieldName ++ lit " must be one of: " ++ Auth.join allowedValues)
  else Return value.

Record ValidatedCourse : Type := {
  course_name : list N;
  course_description : list N;
}.

Definition validateCourseInput (data : gmap (list N) value)
  : outcome ValidatedCourse :=
  rules ← prop (Some VALIDATION_RULES) "course";
  v_name ← validateRequired (get data (lit "name")) (lit "Course Name");
  v_description ←
    validateRequired (get data (lit "description")) (lit "Course Description");
  let validated :=
    {| course_name := v_name; course_description := v_description |} in
  lo ← path rules ["name"; "min"]%string;
  hi ← path rules ["name"; "max"]%string;
  _ ← validateLength' (course_name validated) (as_bound lo) (as_bound hi)
        (lit "Course Name");
  lo ← path rules ["description"; "min"]%string;
  hi ← path rules ["description"; "max"]%string;
  _ ← validateLength' (course_description validated) (as_bound lo) (as_bound hi)
        (lit "Course Description");
  Return validated.

Record ValidatedRound : Type := {
  round_name : list N;
  round_description : option (list N);
  round_startDate : number;
  round_dueDate : number;
}.

Definition validateCertificationRoundInput (data : gmap (list N) value)
  : outcome ValidatedRound :=
  rules ← prop (Some VALIDATION_RULES) "certificationRound";
  v_name ← validateRequired (get data (lit "name")) (lit "Round Name");
  v_description ←
    (hi ← path rules ["description"; "max"]%string;
     validateOptional' (get data (lit "description")) (Some 0%Z) (as_bound hi)
       (lit "Description"));
  v_startDate ← validateDate (get data (lit "startDate")) (lit "Start Date");
  v_dueDate ← validateDate (get data (lit "dueDate")) (lit "Due Date");
  let validated :=
    {| round_name := v_name; round_description := v_description;
       round_startDate := v_startDate; round_dueDate := v_dueDate |} in
  lo ← path rules ["name"; "min"]%string;
  hi ← path rules ["name"; "max"]%string;
  _ ← validateLength' (round_name validated) (as_bound lo) (as_bound hi)
        (lit "Round Name");
  (* Business rule: Due date must be after start date *)
  if less_equal (round_dueDate validated) (round_startDate validated) then
    Throw (lit "Due date must be after start date")
  else Return validated.

Record ValidatedComment : Type := {
  comment_text : list N;
  comment_moduleId : list N;
}.

Definition validateCommentInput (data : gmap (list N) value)
  : outcome ValidatedComment :=
  rules ← prop (Some VALIDATION_RULES) "comment";
  v_text ← validateRequired (get data (lit "text")) (lit "Comment Text");
  v_moduleId ← validateRequired (get data (lit "moduleId")) (lit "Module ID");
  let validated := {| comment_text := v_text; comment_moduleId := v_moduleId |} in
  lo ← path rules ["comment"; "text"; "min"]%string;
  hi ← path rules ["comment"; "text"; "max"]%string;
  _ ← validateLength' (comment_text validated) (as_bound lo) (as_bound hi)
        (lit "Comment Text");
  Return validated.

Record ValidatedUser : Type := {
  user_email : list N;
  user_displayName : list N;
  user_role : value;
}.

Definition validateUserInput (data : gmap (list N) value)
  : outcome ValidatedUser :=
  rules ← prop (Some VALIDATION_RULES) "user";
  v_email ← validateEmail (get data (lit "email"));
  v_displayName ← validateRequired (get data (lit "displayName")) (lit "Display Name");
  v_role ←
    validateEnum (get data (lit "role"))
      [lit "sysadmin"; lit "programOwner"; lit "operations"] (lit "Role");
  let validated :=
    {| user_email := v_email; user_displayName := v_displayName;
       user_role := v_role |} in
  lo ← path rules ["user"; "displayName"; "min"]%string;
  hi ← path rules ["user"; "displayName"; "max"]%string;
  _ ← validateLength' (user_displayName validated) (as_bound lo) (as_bound hi)
        (lit "Display Name");
  Return validated.

End Builtins.

End Assemblers.

(* ===================================================================== *)
(** ** The e-mail domain check of the middleware                          *)
(* ===================================================================== *)

Module Middleware.
Import JS Auth.

(** [allowedDomains] is [None] when the argument is left out. *)
Definition validateEmailDomain (email : list N)
    (allowedDomains : option (list (list N))) : outcome bool :=
  let allowedDomains := default [lit "wbscodingschool.com"] allowedDomains in
  let domain := Assemblers.split 64 email !! 1%nat in
  if negb (bool_decide (domain ∈ Some <$> allowedDomains)) then
    Throw (lit "Email domain not allowed. Must be one of: " ++ join allowedDomains)
  else Return true.

End Middleware.

(* ===================================================================== *)
(** ** functions/notes/index.js: the two callable functions               *)
(* ===================================================================== *)

Module Notes.
Import JS Auth.

(** What a handler throws: a plain [Error] or an [HttpsError] with its
    code. *)
Inductive thrown : Type :=
| PlainError (message : list N)
| HttpsError (code message : list N).

Inductive result (A : Type) : Type :=
| Done (a : A)
| Failed (t : thrown).
Arguments Done {A} a.
Arguments Failed {A} t.

(** What a handler runs against: the world, and the fate of the coming
    reads of the notes ([Some e]: the store rejects the read with error
    [e]), as [write_faults] is the fate of the coming writes. *)
Record session : Type := Session {
  db : world;
  read_faults : list (option (list N));
}.

Definition Call (A : Type) : Type := session → result A * session.

#[global] Instance Call_ret : MRet Call := λ A a s, (Done a, s).
#[global] Instance Call_bind : MBind Call := λ A B f m s,
  match m s with
  | (Done a, s') => f a s'
  | (Failed t, s') => (Failed t, s')
  end.

Definition fail {A} (t : thrown) : Call A := λ s, (Failed t, s).

(** [try { body } catch (error) { handler(error) }] *)
Definition catching {A} (body : Call A) (handler : thrown → Call A) : Call A := λ s,
  match body s with
  | (Done a, s') => (Done a, s')
  | (Failed t, s') => handler t s'
  end.

Definition message_of (t : thrown) : list N :=
  match t with PlainError m => m | HttpsError _ m => m end.

(** [console.log] and [console.error]: a line with its label and, when an
    error is printed, the error's message ([[]] otherwise). *)
Definition console_line (label message : list N) : Call unit := λ s,
  (Done (),
   Session (World (store (db s)) (auditLogs (db s)) (write_faults (db s))
                  (ops (db s)) (console (db s) ++ [(label, message)]))
           (read_faults s)).

(** [db.collection('notes').get()]: the documents of the collection, unless
    the store rejects the read (the log of store operations has no entry
    for reading a whole collection). *)
Definition notes_get : Call (list (list N * gmap (list N) value)) := λ s,
  match read_faults s with
  | Some e :: rest => (Failed (PlainError e), Session (db s) rest)
  | faults => (Done (documents (db s) (lit "notes")), Session (db s) (tail faults))
  end.

(** [db.collection('notes').add(data)]: the store assigns the document the
    id [id]; like every write it may be rejected ([write_faults]). *)
Definition notes_add (id : list N) (data : gmap (list N) value) : Call unit := λ s,
  let w := record (OpAdd (lit "notes")) (db s) in
  match write_faults w with
  | Some e :: rest =>
      (Failed (PlainError e),
       Session (World (store w) (auditLogs w) rest (ops w) (console w))
               (read_faults s))
  | faults =>
      (Done (),
       Session (World (<[lit "notes" := documents w (lit "notes") ++ [(id, data)]]>
                         (store w))
                      (auditLogs w) (tail faults) (ops w) (console w))
               (read_faults s))
  end.

(** [noteRef.get()]: the document, unless the store rejects the read. *)
Definition note_get (id : list N) : Call (option (gmap (list N) value)) := λ s,
  let w := record (OpGet (lit "notes") id) (db s) in
  match read_faults s with
  | Some e :: rest => (Failed (PlainError e), Session w rest)
  | faults => (Done (find_doc id (documents w (lit "notes"))), Session w (tail faults))
  end.

(** [{id: doc.id, ...doc.data()}]: a field [id] of the data wins. *)
Definition with_id (id : list N) (data : gmap (list N) value)
  : gmap (list N) value :=
  data ∪ {[ lit "id" := VStr id ]}.

Record ReadNotesResponse : Type := {
  read_success : bool;
  read_notes : list (gmap (list N) value);
  read_count : nat;
}.

Definition readNotes : Call ReadNotesResponse :=
  catching
    (_ ← console_line ([0xD83D; 0xDCD6]%N ++ lit " Reading notes...") [];
     notesSnapshot ← notes_get;
     let notes := (λ doc, with_id doc.1 doc.2) <$> notesSnapshot in
     mret {| read_success := true; read_notes := notes;
             read_count := length notes |})
    (λ error,
       _ ← console_line (lit "Error reading notes:") (message_of error);
       fail (HttpsError (lit "internal")
               (if nonempty (message_of error) then message_of error
                else lit "Failed to read notes"))).

Record CreateNoteResponse : Type := {
  create_success : bool;
  create_note : gmap (list N) value;
  create_message : list N;
}.

(** [!x || !x.trim()] for a field named [name]: a truthy value that is not
    a string has no [trim], and calling it throws a TypeError. *)
Definition blank (name : string) (x : value) : Call bool :=
  if negb (truthy x) then mret true else
  match x with
  | VStr s => mret (negb (nonempty (trim s)))
  | _ => fail (PlainError (lit name ++ lit ".trim is not a function"))
  end.

(** [x.trim()] once [blank] has passed. *)
Definition trimmed (x : value) : list N :=
  match x with VStr s => trim s | _ => [] end.

(** [id] and [serverTime] are what the store will assign: the new
    document's id and the value of its server timestamps. *)
Definition createNote (data : gmap (list N) value) (id : list N)
    (serverTime : value) : Call CreateNoteResponse :=
  catching
    (let title := get data (lit "title") in
     let content := get data (lit "content") in
     (* Basic validation *)
     b ← blank "title" title;
     _ ← (if b : bool
          then fail (HttpsError (lit "invalid-argument") (lit "Title is required"))
          else mret ());
     b ← blank "content" content;
     _ ← (if b : bool
          then fail (HttpsError (lit "invalid-argument") (lit "Content is required"))
          else mret ());
     let trimmedTitle := trimmed title in
     let trimmedContent := trimmed content in
     (* Length validation *)
     _ ← (if bool_decide (length trimmedTitle < 3)%nat
          then fail (HttpsError (lit "invalid-argument")
                       (lit "Title must be at least 3 characters long"))
          else mret ());
     _ ← (if bool_decide (length trimmedContent < 10)%nat
          then fail (HttpsError (lit "invalid-argument")
                       (lit "Content must be at least 10 characters long"))
          else mret ());
     _ ← console_line ([0x270D; 0xFE0F]%N ++ lit " Creating note:") trimmedTitle;
     (* Create note document *)
     let noteData : gmap (list N) value :=
       list_to_map [ (lit "title", VStr trimmedTitle);
                     (lit "content", VStr trimmedContent);
                     (lit "createdAt", serverTime);
                     (lit "updatedAt", serverTime);
                     (lit "status", VStr (lit "active")) ] in
     _ ← notes_add id noteData;
     noteDoc ← note_get id;
     let createdNote := with_id id (default ∅ noteDoc) in
     mret {| create_success := true; create_note := createdNote;
             create_message := lit "Note created successfully" |})
    (λ error,
       _ ← console_line (lit "Error creating note:") (message_of error);
       match error with
       | HttpsError _ _ => fail error
       | PlainError m =>
           fail (HttpsError (lit "internal")
                   (if nonempty m then m else lit "Failed to create note"))
       end).

End Notes.

Import Assemblers Middleware Notes.

(* ===================================================================== *)
(** ** Auxiliary notions and sample data for the remaining functions      *)
(* ===================================================================== *)

(** An optional text that, when present, is not empty and has a length
    within the bounds; an optional number that, when present, is finite and
    within the bounds. *)
Definition text_within (lo hi : Z) (o : option (list N)) : Prop :=
  match o with
  | None => True
  | Some s => s ≠ [] ∧ (lo ≤ Z.of_nat (length s) ≤ hi)%Z
  end.

Definition number_within (lo hi : Z) (o : option number) : Prop :=
  match o with
  | None => True
  | Some n => ∃ q, n = Fin q ∧ (inject_Z lo <= q)%Q ∧ (q <= inject_Z hi)%Q
  end.

(** The query of [requireActiveCertificationRound]. *)
Definition round_query : store_op :=
  OpQuery (lit "certificationRounds") (lit "status") (VStr (lit "active")) 1.

(** The store operations of a complete run of [authorizeRequest]. *)
Definition expected_ops (request : Request) (options : Options) : list store_op :=
  match auth request with
  | None => []
  | Some a =>
      OpGet (lit "users") (uid a)
      :: (if opt_requireActiveRound options then [round_query] else [])
      ++ match opt_requireOwnership options with
         | Some o => [OpGet (resourceType o) (resourceId o)]
         | None => []
         end
  end.

(** [w'] is [w] with the store operations [tr] recorded and nothing else
    changed. *)
Definition reads_only (w w' : world) (tr : list store_op) : Prop :=
  w' = World (store w) (auditLogs w) (write_faults w) (ops w ++ tr) (console w).

(** A computation that only reads the store: it records a prefix of [tr],
    all of [tr] when it returns. *)
Definition reads_exactly {A} (tr : list store_op) (m : M A) : Prop :=
  ∀ w, ∃ tr', reads_only w (m w).2 tr' ∧ tr' `prefix_of` tr
              ∧ (is_return (m w).1 = true → tr' = tr).

(** The same without the last part: it records some prefix of [tr]. *)
Definition reads_within {A} (tr : list store_op) (m : M A) : Prop :=
  ∀ w, ∃ tr', reads_only w (m w).2 tr' ∧ tr' `prefix_of` tr.

(** What the handler of [createNote] rethrows. *)
Definition wrapped (fallback : string) (t : thrown) : thrown :=
  match t with
  | HttpsError _ _ => t
  | PlainError m => HttpsError (lit "internal") (if nonempty m then m else lit fallback)
  end.

Definition with_line (label message : list N) (s : session) : session :=
  Session (World (store (db s)) (auditLogs (db s)) (write_faults (db s))
                 (ops (db s)) (console (db s) ++ [(label, message)]))
          (read_faults s).

(** A field of the request as the two checks of [createNote] see it. *)
Inductive field_state : Type :=
| Missing
| NotText
| Text (trimmed : list N).

Definition field_state_of (x : value) : field_state :=
  if negb (truthy x) then Missing else
  match x with
  | VStr s => if nonempty (trim s) then Text (trim s) else Missing
  | _ => NotText
  end.

(** The first check of [createNote] that fails, with what it throws. *)
Definition note_fault (data : gmap (list N) value) : option thrown :=
  match field_state_of (get data (lit "title")) with
  | Missing => Some (HttpsError (lit "invalid-argument") (lit "Title is required"))
  | NotText => Some (PlainError (lit "title.trim is not a function"))
  | Text t =>
      match field_state_of (get data (lit "content")) with
      | Missing => Some (HttpsError (lit "invalid-argument") (lit "Content is required"))
      | NotText => Some (PlainError (lit "content.trim is not a function"))
      | Text c =>
          if bool_decide (length t < 3)%nat then
            Some (HttpsError (lit "invalid-argument")
                    (lit "Title must be at least 3 characters long"))
          else if bool_decide (length c < 10)%nat then
            Some (HttpsError (lit "invalid-argument")
                    (lit "Content must be at least 10 characters long"))
          else None
      end
  end.

(** The document [createNote] writes. *)
Definition noteData (data : gmap (list N) value) (serverTime : value)
  : gmap (list N) value :=
  list_to_map [ (lit "title", VStr (trimmed (get data (lit "title"))));
                (lit "content", VStr (trimmed (get data (lit "content"))));
                (lit "createdAt", serverTime);
                (lit "updatedAt", serverTime);
                (lit "status", VStr (lit "active")) ].

(** Sample data: lower-casing of the letters A to Z, dates given as their
    time value, payloads for the assembling validators, a caller whose token
    names a role, options with an empty list of roles, a note, a world
    whose next write fails and sessions on a world. *)
Definition ascii_lower (s : list N) : list N :=
  (λ c, if (65 <=? c)%N && (c <=? 90)%N then (c + 32)%N else c) <$> s.

Definition date_of_number (v : value) : number :=
  match v with VNum n => n | _ => NaN end.

(** A module whose number of units is a literal that rounds to 1. *)
Definition precise_payload : gmap (list N) value :=
  list_to_map [ (lit "titleEn", VStr (lit "Databases"));
                (lit "descriptionEn", VStr (lit "Relational databases and SQL"));
                (lit "ue45", VStr (lit "0.99999999999999999")) ].

Definition course_payload : gmap (list N) value :=
  list_to_map [ (lit "name", VStr (lit "Web Development"));
                (lit "description", VStr (lit "Full stack web development")) ].

Definition round_payload : gmap (list N) value :=
  list_to_map [ (lit "name", VStr (lit "Round 2025"));
                (lit "startDate", VNum (of_Z 1000));
                (lit "dueDate", VNum (of_Z 2000)) ].

Definition operations_request : Request :=
  {| auth := Some {| uid := lit "admin1";
                     token := {[ lit "role" := VStr (lit "operations") ]} |} |}.

Definition no_roles : Options :=
  {| opt_requireRoles := Some (RoleList []); opt_requireMinRole := None;
     opt_requireActiveRound := false; opt_requireOwnership := None |}.

Definition note_payload : gmap (list N) value :=
  list_to_map [ (lit "title", VStr (lit "  Shopping "));
                (lit "content", VStr (lit "Milk, bread and eggs ")) ].

Definition failing_world : world :=
  {| store := ∅; auditLogs := []; write_faults := [Some (lit "unavailable")];
     ops := []; console := [] |}.

(** A session on a world: every read is answered, or the first one is
    rejected. *)
Definition answering (w : world) : session :=
  {| db := w; read_faults := [] |}.

Definition unreadable (w : world) : session :=
  {| db := w; read_faults := [Some (lit "deadline exceeded")] |}.

(* ===================================================================== *)
(** ** The sanitizer: the two patterns as plain scans                     *)
(* ===================================================================== *)

Lemma rmatch_Lit ic p k b s :
  rmatch ic (Lit p) k (Cursor b s) =
  match starts_with ic p s with
  | Some rest => k (Cursor (rev (take (length p) s) ++ b) rest)
  | None => None
  end.
Proof.
  revert b s. induction p as [|x p IH]; intros b s; simpl.
  - reflexivity.
  - destruct s as [|y s]; simpl; [reflexivity|].
    destruct (canonicalize ic y =? canonicalize ic x)%N; [|reflexivity].
    rewrite IH. destruct (starts_with ic p s); [|reflexivity].
    by rewrite <- app_assoc.
Qed.

Lemma canonicalize_lt x : (canonicalize true x =? canonicalize true 60)%N = (x =? 60)%N.
Proof.
  unfold canonicalize. simpl.
  destruct (97 <=? x)%N eqn:E1, (x <=? 122)%N eqn:E2; simpl; try reflexivity.
  apply N.leb_le in E1. apply N.leb_le in E2.
  destruct (N.eqb_spec (x - 32) 60), (N.eqb_spec x 60); try reflexivity; lia.
Qed.

Lemma not_lt_member y : class_member true [(60, 60)%N] y = (y =? 60)%N.
Proof.
  unfold class_member, in_ranges. simpl.
  repeat match goal with |- context [(?a <=? ?b)%N] => destruct (N.leb_spec a b); simpl end;
   destruct (N.eqb_spec y 60); try reflexivity; lia.
Qed.

Lemma rmatch_not_lt k b s :
  rmatch true not_lt k (Cursor b s) =
  match s with
  | y :: rest => if (y =? 60)%N then None else k (Cursor (y :: b) rest)
  | [] => None
  end.
Proof.
  destruct s as [|y s]; simpl; [reflexivity|].
  rewrite not_lt_member. by destruct (y =? 60)%N.
Qed.

Lemma run_end_length b s : (length (after (run_end b s)) ≤ length s)%nat.
Proof. revert b; induction s as [|y s IH]; intros b; simpl; [lia|].
  destruct (y =? 60)%N; simpl; [lia|]. specialize (IH (y :: b)). lia. Qed.

Lemma star_loop_S m k n c :
  star_loop m k (S n) c =
  match m (λ c', if (length (after c') <? length (after c))%nat
                 then star_loop m k n c' else None) c with
  | Some e => Some e
  | None => k c
  end.
Proof. reflexivity. Qed.

Lemma star_not_lt k : wants_lt k → ∀ s n b, (length s ≤ n)%nat →
  star_loop (rmatch true not_lt) k n (Cursor b s) = k (run_end b s).
Proof.
  intros Hk s. induction s as [|y s IH]; intros n b Hn.
  - destruct n; simpl; reflexivity.
  - destruct n; simpl in Hn; [lia|]. rewrite star_loop_S.
    rewrite rmatch_not_lt. simpl run_end.
    destruct (N.eqb_spec y 60) as [->|Hy]; [reflexivity|].
    simpl. destruct (Nat.ltb_spec (length s) (S (length s))); [|lia].
    rewrite IH by lia.
    destruct (k (run_end (y :: b) s)); [reflexivity|].
    by rewrite Hk.
Qed.

Lemma closing_wants_lt : wants_lt closing.
Proof.
  intros b x r Hx. unfold closing. simpl.
  rewrite canonicalize_lt. destruct (N.eqb_spec x 60); [done|reflexivity].
Qed.

Lemma starts_with_closing_not_lt x r : x ≠ 60%N → starts_with true (lit "</script>") (x :: r) = None.
Proof.
  intros Hx. simpl. rewrite canonicalize_lt. by destruct (N.eqb_spec x 60).
Qed.

Lemma group_loop_wants_lt n : wants_lt (star_loop (rmatch true group) closing n).
Proof.
  intros b x r Hx. destruct n.
  - by apply closing_wants_lt.
  - rewrite star_loop_S. rewrite closing_wants_lt by done.
    unfold group. cbn [rmatch]. fold (closing (Cursor b (x :: r))).
    rewrite closing_wants_lt by done. cbn [after].
    rewrite canonicalize_lt. by destruct (N.eqb_spec x 60).
Qed.

Lemma after_closing_tag_skip x r : x ≠ 60%N → after_closing_tag (x :: r) = after_closing_tag r.
Proof. intros Hx. cbn [after_closing_tag]. by rewrite starts_with_closing_not_lt. Qed.

Lemma after_closing_tag_run b s :
  after_closing_tag (after (run_end b s)) = after_closing_tag s.
Proof.
  revert b. induction s as [|y s IH]; intros b; [reflexivity|].
  cbn [run_end]. destruct (N.eqb_spec y 60); [reflexivity|].
  rewrite IH. by rewrite after_closing_tag_skip.
Qed.

Lemma closing_after c :
  after <$> closing c = starts_with true (lit "</script>") (after c).
Proof.
  destruct c as [b s]. unfold closing, closing_tag. rewrite rmatch_Lit. cbn [after].
  by destruct (starts_with true (lit "</script>") s).
Qed.

Lemma after_closing_tag_unfold s :
  after_closing_tag s =
  match starts_with true (lit "</script>") s with
  | Some rest => Some rest
  | None => match s with [] => None | _ :: s' => after_closing_tag s' end
  end.
Proof. by destruct s. Qed.

Lemma run_end_at_lt b s : at_lt_or_end (after (run_end b s)).
Proof. revert b; induction s as [|y s IH]; intros b; simpl; [done|].
  destruct (N.eqb_spec y 60); simpl; [done|]. apply IH. Qed.

Lemma group_loop n : ∀ b s, (length s ≤ n)%nat → at_lt_or_end s →
  after <$> star_loop (rmatch true group) closing n (Cursor b s) = after_closing_tag s.
Proof.
  induction n as [|n IH]; intros b s Hn Hs.
  - destruct s; [|simpl in Hn; lia]. reflexivity.
  - destruct s as [|x s]; [reflexivity|]. simpl in Hs. subst x.
    rewrite star_loop_S. unfold group at 1. cbn [rmatch].
    fold (closing (Cursor b (60%N :: s))).
    pose proof (closing_after (Cursor b (60%N :: s))) as Hc. cbn [after] in Hc.
    rewrite (after_closing_tag_unfold (60%N :: s)).
    destruct (closing (Cursor b (60%N :: s))) as [e|] eqn:Ec;
      cbn [fmap option_fmap option_map] in Hc; rewrite <- Hc.
    + reflexivity.
    + cbn [after before]. rewrite N.eqb_refl.
      rewrite star_not_lt.
      * pose proof (run_end_length (60%N :: b) s).
        destruct (Nat.ltb_spec (length (after (run_end (60%N :: b) s))) (length (60%N :: s))); [|simpl in *; lia].
        rewrite <- (after_closing_tag_run (60%N :: b) s).
        pose proof (run_end_at_lt (60%N :: b) s) as Hlt.
        destruct (run_end (60%N :: b) s) as [b' s'] eqn:Er. cbn [after] in *.
        rewrite <- (IH b' s') by (simpl in Hn; auto with lia).
        by destruct (star_loop (rmatch true group) closing n (Cursor b' s')).
      * intros b' x r Hx. cbn [after].
        destruct (length (x :: r) <? length (60%N :: s))%nat; [|reflexivity].
        by apply group_loop_wants_lt.
      * lia.
Qed.

Lemma rmatch_body b s :
  after <$> rmatch true body Some (Cursor b s) = after_closing_tag s.
Proof.
  unfold body. cbn [rmatch after].
  rewrite star_not_lt; [| |lia].
  - rewrite <- (after_closing_tag_run b s).
    pose proof (run_end_at_lt b s) as Hlt.
    destruct (run_end b s) as [b' s'] eqn:Er. cbn [rmatch after] in *.
    fold group. change (rmatch true closing_tag Some) with closing.
    by apply group_loop.
  - intros b' x r Hx. cbn [rmatch after].
    fold group. change (rmatch true closing_tag Some) with closing.
    by apply group_loop_wants_lt.
Qed.

Lemma starts_with_app ic p s rest :
  starts_with ic p s = Some rest →
  s = take (length p) s ++ rest ∧ length (take (length p) s) = length p
  ∧ Forall2 (λ y x, canonicalize ic y = canonicalize ic x) (take (length p) s) p.
Proof.
  revert s. induction p as [|x p IH]; intros s H; simpl in *.
  - inversion H; subst. simpl. by repeat split.
  - destruct s as [|y s]; [done|].
    destruct (N.eqb_spec (canonicalize ic y) (canonicalize ic x)) as [E|]; [|done].
    destruct (IH _ H) as (H1 & H2 & H3). simpl. repeat split.
    + by f_equal. + by f_equal. + by constructor.
Qed.

Lemma canonical_t_word g : canonicalize true g = 84%N → is_word_char g = true.
Proof.
  unfold canonicalize. cbn [andb].
  destruct (N.leb_spec 97 g), (N.leb_spec g 122); cbn [andb]; intros Hg.
  - assert (g = 116%N) as -> by lia. reflexivity.
  - lia.
  - by subst g.
  - by subst g.
Qed.

Lemma script_tags_match b s :
  after <$> rmatch true script_tags Some (Cursor b s) = script_element s.
Proof.
  unfold script_tags, script_element. cbn [rmatch]. rewrite rmatch_Lit.
  destruct (starts_with true (lit "<script") s) as [rest|] eqn:E; [|reflexivity].
  apply starts_with_app in E as (E1 & E2 & E3).
  fold body.
  assert (Hb : match rev (take (length (lit "<script")) s) ++ b with
               | x :: _ => is_word_char x | [] => false end = true).
  { remember (take (length (lit "<script")) s) as m. clear -E3.
    vm_compute in E3.
    repeat (match goal with H : Forall2 _ _ _ |- _ => inversion H; clear H; subst end).
    simpl. by apply canonical_t_word. }
  cbn [rmatch]. unfold at_word_boundary. cbn [before after]. rewrite Hb.
  destruct rest as [|x rest']; cbn [eqb negb].
  - apply rmatch_body.
  - destruct (is_word_char x); cbn [eqb negb]; [reflexivity|]. apply rmatch_body.
Qed.

Lemma remove_script_tags b s n :
  remove_matches true script_tags b s n = strip_script_elements s n.
Proof.
  revert b n. induction s as [|x s IH]; intros b n; [reflexivity|].
  cbn [remove_matches strip_script_elements].
  destruct n as [|n]; [|apply IH].
  rewrite <- (script_tags_match b (x :: s)).
  destruct (rmatch true script_tags Some (Cursor b (x :: s))) as [e|];
    cbn [fmap option_fmap option_map].
  - destruct (length (x :: s) - length (after e))%nat; [f_equal|]; apply IH.
  - f_equal. apply IH.
Qed.

Lemma remove_control_chars b s :
  remove_matches false control_chars b s 0 = List.filter (λ c, negb (is_control_char c)) s.
Proof.
  revert b. induction s as [|x s IH]; intros b; [reflexivity|].
  cbn [remove_matches List.filter]. unfold control_chars at 1. cbn [rmatch after].
  unfold class_member. cbn [andb orb xorb].
  rewrite orb_false_r.
  assert (in_ranges [(0, 8); (11, 11); (12, 12); (14, 31); (127, 127)]%N x = is_control_char x) as ->.
  { unfold is_control_char, in_ranges. cbn [existsb fst snd].
    repeat match goal with |- context [(?a <=? ?b)%N] => destruct (N.leb_spec a b) end; cbn [andb orb]; try reflexivity; lia. }
  destruct (is_control_char x); cbn [negb after].
  - replace (length (x :: s) - length s)%nat with 1%nat by (simpl; lia). apply IH.
  - f_equal. apply IH.
Qed.

(** [trim] takes a run of whitespace off each end and leaves none there. *)
Lemma drop_while_split (p : N → bool) (s : list N) :
  ∃ l, s = l ++ drop_while p s ∧ forallb p l = true
       ∧ ∀ c, head (drop_while p s) = Some c → p c = false.
Proof.
  induction s as [|x s (l & Hs & Hl & Hhead)]; cbn [drop_while].
  - exists []. by repeat split.
  - destruct (p x) eqn:Hx.
    + exists (x :: l). split; [by rewrite Hs at 1|]. split; [|done].
      cbn [forallb]. by rewrite Hx, Hl.
    + exists []. repeat split. intros c [= <-]. exact Hx.
Qed.

Lemma trim_surrounding (s : list N) :
  ∃ l r, s = l ++ trim s ++ r
         ∧ forallb is_whitespace l = true ∧ forallb is_whitespace r = true
         ∧ (∀ c, head (trim s) = Some c → is_whitespace c = false)
         ∧ (∀ c, last (trim s) = Some c → is_whitespace c = false).
Proof.
  unfold trim.
  destruct (drop_while_split is_whitespace s) as (l & Hs & Hl & Hhead).
  remember (drop_while is_whitespace s) as t eqn:Et. clear Et.
  destruct (drop_while_split is_whitespace (rev t)) as (r & Ht & Hr & Hlast).
  remember (drop_while is_whitespace (rev t)) as u eqn:Eu. clear Eu.
  assert (Htu : t = rev u ++ rev r).
  { rewrite <- (rev_involutive t), Ht. by rewrite rev_app_distr. }
  exists l, (rev r). subst s t. split; [done|].
  split; [done|]. split.
  { rewrite forallb_forall in *. intros c Hc. apply Hr. by apply in_rev. }
  split.
  - intros c Hc. apply Hhead. destruct (rev u); [done|]. exact Hc.
  - intros c Hc. apply Hlast. rewrite <- Hc.
    rewrite rev_alt. change (rev_append u []) with (reverse u).
    by rewrite last_reverse.
Qed.

Lemma replace_control_chars s :
  replace_all_empty false control_chars s
  = List.filter (λ c, negb (is_control_char c)) s.
Proof. apply remove_control_chars. Qed.

Lemma replace_script_tags s :
  replace_all_empty true script_tags s = strip_script_elements s 0.
Proof. apply remove_script_tags. Qed.

(** C5. [sanitizeString] of a string trims it (the whitespace at both ends
    goes, none is left there), then drops every control character
    (0x00-0x08, 0x0B-0x0C, 0x0E-0x1F, 0x7F), then drops each piece of script
    markup (opening tag in any letter case through the first closing tag),
    then keeps at most 10,000 code units; anything that is not a string
    sanitizes to the empty string; the result never exceeds 10,000 code
    units; and the specification's example yields "hello". *)
Theorem sanitizeString_pipeline :
  (∀ s : list N,
     sanitizeString (VStr s)
     = take 10000
         (strip_script_elements
            (List.filter (λ c, negb (is_control_char c)) (trim s)) 0))
  ∧ (∀ s : list N,
       ∃ l r, s = l ++ trim s ++ r
              ∧ forallb is_whitespace l = true ∧ forallb is_whitespace r = true
              ∧ (∀ c, head (trim s) = Some c → is_whitespace c = false)
              ∧ (∀ c, last (trim s) = Some c → is_whitespace c = false))
  ∧ (∀ v : value,
       match v with VStr _ => True | _ => sanitizeString v = [] end)
  ∧ (∀ v : value, (length (sanitizeString v) ≤ 10000)%nat)
  ∧ sanitizeString (VStr (lit "<script>alert(1)</script>hello")) = lit "hello".
Proof.
  split; [|split; [|split; [|split]]].
  - intros s. unfold sanitizeString.
    by rewrite replace_control_chars, replace_script_tags.
  - apply trim_surrounding.
  - by intros [].
  - intros v. destruct v; simpl; try apply Nat.le_0_l.
    rewrite length_take. apply Nat.le_min_l.
  - by vm_compute.
Qed.

(* ===================================================================== *)
(** ** The rate limiter                                                   *)
(* ===================================================================== *)

Section RateLimit.
Variables (userId action : list N) (maxRequests windowMs : Z).
Hypothesis positive_limit : (1 ≤ maxRequests)%Z.

Let key := userId ++ lit ":" ++ action.

Lemma checkRateLimit_refines (now : Z) (st : gmap (list N) (list Z)) :
  checkRateLimit userId action maxRequests windowMs now st
  = checkRateLimit_spec userId action maxRequests windowMs now st.
Proof.
  unfold checkRateLimit, checkRateLimit_spec.
  destruct (st !! (userId ++ lit ":" ++ action)) as [stored|]; [reflexivity|].
  cbn [default]. rewrite filter_nil. cbn [length app].
  rewrite bool_decide_eq_false_2 by lia. reflexivity.
Qed.

Lemma filter_keeps_all (now : Z) (l : list Z) :
  (∀ x, x ∈ l → now - x < windowMs)%Z →
  filter (λ t, now - t < windowMs)%Z l = l.
Proof.
  induction l as [|x l IH]; intros H; [reflexivity|].
  rewrite filter_cons_True by (apply H; left).
  f_equal. apply IH. intros y Hy. apply H. by right.
Qed.

Lemma filter_drops_all (now : Z) (l : list Z) :
  (∀ x, x ∈ l → windowMs ≤ now - x)%Z →
  filter (λ t, now - t < windowMs)%Z l = [].
Proof.
  induction l as [|x l IH]; intros H; [reflexivity|].
  rewrite filter_cons_False.
  - apply IH. intros y Hy. apply H. by right.
  - assert (windowMs ≤ now - x)%Z by (apply H; left). lia.
Qed.

Lemma rateLimitCalls_app (t1 t2 : list Z) (st : gmap (list N) (list Z)) :
  rateLimitCalls userId action maxRequests windowMs (t1 ++ t2) st
  = let '(o1, st1) := rateLimitCalls userId action maxRequests windowMs t1 st in
    let '(o2, st2) := rateLimitCalls userId action maxRequests windowMs t2 st1 in
    (o1 ++ o2, st2).
Proof.
  revert st. induction t1 as [|t t1 IH]; intros st; cbn [rateLimitCalls app].
  - by destruct (rateLimitCalls _ _ _ _ t2 st).
  - destruct (checkRateLimit _ _ _ _ t st) as [o st0]. rewrite IH.
    destruct (rateLimitCalls _ _ _ _ t1 st0) as [o1 st1].
    by destruct (rateLimitCalls _ _ _ _ t2 st1).
Qed.

(** Calls inside one window are accepted while the count stays within the
    limit, and each is recorded. *)
Lemma accepted_within_limit (times : list Z) : ∀ (st : gmap (list N) (list Z)),
  (∀ x y, x ∈ default [] (st !! key) ++ times → y ∈ times → y - x < windowMs)%Z →
  (Z.of_nat (length (default [] (st !! key)) + length times) ≤ maxRequests)%Z →
  let r := rateLimitCalls userId action maxRequests windowMs times st in
  r.1 = replicate (length times) (Return true)
  ∧ default [] (r.2 !! key) = default [] (st !! key) ++ times.
Proof.
  induction times as [|t times IH]; intros st Hwin Hcount; cbn zeta.
  - cbn. by rewrite app_nil_r.
  - cbn [rateLimitCalls]. rewrite checkRateLimit_refines.
    unfold checkRateLimit_spec. fold key.
    rewrite filter_keeps_all.
    2:{ intros x Hx. apply Hwin; [|left]. apply elem_of_app. by left. }
    rewrite bool_decide_eq_false_2 by (cbn [length] in Hcount; lia).
    set (st1 := <[key := default [] (st !! key) ++ [t]]> st).
    assert (Hst1 : default [] (st1 !! key) = default [] (st !! key) ++ [t]).
    { unfold st1. by rewrite lookup_insert_eq. }
    specialize (IH st1). rewrite Hst1 in IH.
    destruct IH as [IH1 IH2].
    + intros x y Hx Hy. apply Hwin; [|by right].
      rewrite <- app_assoc in Hx. exact Hx.
    + rewrite length_app. cbn [length] in *. lia.
    + destruct (rateLimitCalls _ _ _ _ times st1) as [os st2]. cbn [fst snd] in *.
      split; [by rewrite IH1|]. rewrite IH2. by rewrite <- app_assoc.
Qed.
End RateLimit.

(** A rejected call leaves the store as it was. *)
Lemma checkRateLimit_throw_keeps_store (userId action : list N)
    (maxRequests windowMs now : Z) (st : gmap (list N) (list Z)) (e : list N) :
  (checkRateLimit userId action maxRequests windowMs now st).1 = Throw e →
  (checkRateLimit userId action maxRequests windowMs now st).2 = st.
Proof.
  unfold checkRateLimit.
  destruct (st !! (userId ++ lit ":" ++ action)); [|done].
  by case_bool_decide.
Qed.

(** C1, as stated, fails for a limit of zero: on a key never seen before the
    code accepts the call, where the described procedure (pruned count 0 is
    at least 0) rejects it; so the first call, which is the (m+1)-th for
    m = 0, does not fail. *)
Lemma checkRateLimit_zero_limit_accepts :
  (checkRateLimit (lit "u") (lit "a") 0 60000 0 ∅).1 = Return true
  ∧ (checkRateLimit_spec (lit "u") (lit "a") 0 60000 0 ∅).1
    = Throw (RateLimitError 0 (lit "a")).
Proof.
  unfold checkRateLimit, checkRateLimit_spec. rewrite lookup_empty.
  split; reflexivity.
Qed.

(** C1, amended to limits of at least one. For every window, positive or
    not, [checkRateLimit] is then the described procedure: take the list
    stored under the key [u:a] (empty for a new key), keep the timestamps
    [t] with [now - t < windowMs], reject with the rate-limit error when at
    least [maxRequests] remain, else record [now] and accept. Starting from
    a key never seen, [maxRequests] calls at times lying in one window are
    all accepted, one more call in that window is rejected, and a call made
    when every recorded timestamp is at least [windowMs] old is accepted
    again; the last holds from any store, also right after a rejection. *)
Theorem checkRateLimit_window (userId action : list N) (maxRequests windowMs : Z) :
  (1 ≤ maxRequests)%Z →
  (∀ (now : Z) (st : gmap (list N) (list Z)),
     checkRateLimit userId action maxRequests windowMs now st
     = checkRateLimit_spec userId action maxRequests windowMs now st)
  ∧ (∀ (times : list Z) (t t' : Z) (st : gmap (list N) (list Z)),
       st !! (userId ++ lit ":" ++ action) = None →
       Z.of_nat (length times) = maxRequests →
       (∀ x y, x ∈ times ++ [t] → y ∈ times ++ [t] → y - x < windowMs)%Z →
       (∀ x, x ∈ times → windowMs ≤ t' - x)%Z →
       (rateLimitCalls userId action maxRequests windowMs (times ++ [t; t']) st).1
       = replicate (length times) (Return true)
         ++ [Throw (RateLimitError maxRequests action); Return true])
  ∧ (∀ (now : Z) (st : gmap (list N) (list Z)),
       (∀ x, x ∈ default [] (st !! (userId ++ lit ":" ++ action)) →
             windowMs ≤ now - x)%Z →
       (checkRateLimit userId action maxRequests windowMs now st).1 = Return true).
Proof.
  intros Hm. split; [intros; by apply checkRateLimit_refines|]. split.
  - intros times t t' st Hfresh Hlen Hwin Hlate.
    rewrite rateLimitCalls_app.
    destruct (accepted_within_limit userId action maxRequests windowMs Hm times st)
      as [Hacc Hrec].
    + rewrite Hfresh. cbn [default app]. intros x y Hx Hy.
      apply Hwin; apply elem_of_app; by left.
    + rewrite Hfresh. cbn [default length]. lia.
    + rewrite Hfresh in Hrec. cbn [default app] in Hrec.
      destruct (rateLimitCalls userId action maxRequests windowMs times st)
        as [os st1]. cbn [fst snd] in *. subst os.
      cbn [rateLimitCalls].
      rewrite (checkRateLimit_refines _ _ _ _ Hm t st1).
      unfold checkRateLimit_spec at 1. rewrite Hrec.
      rewrite filter_keeps_all.
      2:{ intros x Hx. apply Hwin; apply elem_of_app; [by left|right; by left]. }
      rewrite bool_decide_eq_true_2 by lia.
      rewrite (checkRateLimit_refines _ _ _ _ Hm t' st1).
      unfold checkRateLimit_spec. rewrite Hrec.
      rewrite filter_drops_all by done.
      rewrite bool_decide_eq_false_2 by (cbn [length]; lia).
      reflexivity.
  - intros now st Hold.
    rewrite (checkRateLimit_refines _ _ _ _ Hm now st). unfold checkRateLimit_spec.
    rewrite filter_drops_all by done.
    by rewrite bool_decide_eq_false_2 by (cbn [length]; lia).
Qed.

Lemma checkRateLimit_window_witness :
  (rateLimitCalls (lit "u") (lit "a") 2 100 ([0; 10] ++ [20; 200])%Z ∅).1
  = replicate 2 (Return true) ++ [Throw (RateLimitError 2 (lit "a")); Return true]
  ∧ (checkRateLimit (lit "u") (lit "a") 2 0 5
       {[ lit "u" ++ lit ":" ++ lit "a" := [5; 5]%Z ]}).1 = Return true.
Proof.
  split.
  - refine (proj1 (proj2 (checkRateLimit_window (lit "u") (lit "a") 2 100 _))
              [0; 10]%Z 20%Z 200%Z ∅ _ _ _ _).
    + lia.
    + apply lookup_empty.
    + reflexivity.
    + intros x y Hx Hy. set_unfold. lia.
    + intros x Hx. set_unfold. lia.
  - refine (proj2 (proj2 (checkRateLimit_window (lit "u") (lit "a") 2 0 _)) 5%Z _ _).
    + lia.
    + intros x. rewrite lookup_singleton_eq. cbn [default]. set_unfold. lia.
Defined.

(* ===================================================================== *)
(** ** The duplicate-content detector                                     *)
(* ===================================================================== *)

Section DuplicateContent.
Implicit Types (userId content action : list N) (windowMs now : Z)
               (st : gmap (list N) Z).

(** The outcome is decided by the record under the key alone. *)
Lemma checkDuplicateContent_outcome userId content action windowMs now st :
  (checkDuplicateContent userId content action windowMs now st).1
  = match st !! (userId ++ lit ":" ++ take 100 content) with
    | Some t => if bool_decide (now - t < windowMs)%Z
                then Throw DuplicateSubmissionError else Return true
    | None => Return true
    end.
Proof.
  unfold checkDuplicateContent.
  destruct (st !! (userId ++ lit ":" ++ take 100 content)) as [t|]; [|done].
  by case_bool_decide.
Qed.

Lemma checkDuplicateContent_accepted_store userId content action windowMs now st :
  (checkDuplicateContent userId content action windowMs now st).1 = Return true →
  (checkDuplicateContent userId content action windowMs now st).2
  = filter (λ entry, ¬ (now - entry.2 > windowMs * 2)%Z)
      (<[userId ++ lit ":" ++ take 100 content := now]> st).
Proof.
  unfold checkDuplicateContent.
  destruct (st !! (userId ++ lit ":" ++ take 100 content)) as [t|]; [|done].
  by case_bool_decide.
Qed.

Lemma checkDuplicateContent_rejected_store userId content action windowMs now st e :
  (checkDuplicateContent userId content action windowMs now st).1 = Throw e →
  (checkDuplicateContent userId content action windowMs now st).2 = st.
Proof.
  unfold checkDuplicateContent.
  destruct (st !! (userId ++ lit ":" ++ take 100 content)) as [t|]; [|done].
  by case_bool_decide.
Qed.

Lemma checkDuplicateContent_prefix userId content action action' windowMs now st :
  checkDuplicateContent userId content action windowMs now st
  = checkDuplicateContent userId (take 100 content) action' windowMs now st.
Proof. unfold checkDuplicateContent. by rewrite take_take, Nat.min_id. Qed.

(** The record of an accepted submission, as the next call finds it. *)
Lemma accepted_record userId content action windowMs now st :
  (checkDuplicateContent userId content action windowMs now st).1 = Return true →
  (checkDuplicateContent userId content action windowMs now st).2
    !! (userId ++ lit ":" ++ take 100 content)
  = if bool_decide (0 ≤ windowMs)%Z then Some now else None.
Proof.
  intros H. rewrite checkDuplicateContent_accepted_store by done.
  case_bool_decide.
  - apply map_lookup_filter_Some. split; [apply lookup_insert_eq|]. simpl. lia.
  - apply map_lookup_filter_None. right. intros t.
    rewrite lookup_insert_eq. intros [= <-]. simpl. lia.
Qed.

Lemma rejected_attempts_keep_store attempts : ∀ st,
  Forall (λ o, is_return o = false) (duplicateCalls attempts st).1 →
  (duplicateCalls attempts st).2 = st.
Proof.
  induction attempts as [|[[[[u c] a] w] t] attempts IH]; intros st H; [done|].
  cbn [duplicateCalls] in *.
  pose proof (checkDuplicateContent_rejected_store u c a w t st) as Hrej.
  destruct (checkDuplicateContent u c a w t st) as [o st1]. cbn [fst snd] in *.
  specialize (IH st1).
  destruct (duplicateCalls attempts st1) as [os st2]. cbn [fst snd] in *.
  inversion H as [|? ? Ho Hos]; subst.
  destruct o as [|e]; [done|].
  rewrite IH by done. by eapply Hrej.
Qed.
End DuplicateContent.

(** C4. The record of [checkDuplicateContent] is keyed on the user and the
    first 100 code units of the content: replacing the content by that
    prefix and the action by any other changes nothing. The call throws the
    duplicate-submission error exactly when the key has a recorded time [t]
    with [now - t < windowMs], and returns otherwise. After a submission
    that is not a duplicate, a second one (under any action) at a later time
    is rejected when less than [windowMs] has passed and accepted when at
    least [windowMs] has passed. *)
Theorem checkDuplicateContent_key (userId content action action' : list N)
    (windowMs now1 now2 : Z) (st : gmap (list N) Z) :
  (∀ t, st !! (userId ++ lit ":" ++ take 100 content) = Some t → windowMs ≤ now1 - t)%Z →
  (now1 ≤ now2)%Z →
  (∀ (w now : Z) (s : gmap (list N) Z),
     checkDuplicateContent userId content action w now s
     = checkDuplicateContent userId (take 100 content) action' w now s)
  ∧ (∀ (w now : Z) (s : gmap (list N) Z),
       (checkDuplicateContent userId content action w now s).1
       = Throw DuplicateSubmissionError
       ↔ ∃ t, s !! (userId ++ lit ":" ++ take 100 content) = Some t ∧ (now - t < w)%Z)
  ∧ (∀ (w now : Z) (s : gmap (list N) Z),
       (checkDuplicateContent userId content action w now s).1 = Return true
       ↔ ¬ ∃ t, s !! (userId ++ lit ":" ++ take 100 content) = Some t ∧ (now - t < w)%Z)
  ∧ (checkDuplicateContent userId content action windowMs now1 st).1 = Return true
  ∧ (checkDuplicateContent userId content action' windowMs now2
       (checkDuplicateContent userId content action windowMs now1 st).2).1
    = if bool_decide (now2 - now1 < windowMs)%Z
      then Throw DuplicateSubmissionError else Return true.
Proof.
  intros Hfresh Hclock.
  assert (Hfirst : (checkDuplicateContent userId content action windowMs now1 st).1
                   = Return true).
  { rewrite checkDuplicateContent_outcome.
    destruct (st !! _) as [t|] eqn:E; [|done].
    specialize (Hfresh t eq_refl). by rewrite bool_decide_eq_false_2 by lia. }
  split; [intros; apply checkDuplicateContent_prefix|].
  split; [|split; [|split; [exact Hfirst|]]].
  - intros w now s. rewrite checkDuplicateContent_outcome.
    destruct (s !! _) as [t|]; [case_bool_decide|]; split; try done.
    + intros _. by exists t.
    + intros (t' & [= <-] & ?). lia.
    + by intros (t' & ? & ?).
  - intros w now s. rewrite checkDuplicateContent_outcome.
    destruct (s !! _) as [t|]; [case_bool_decide|]; split; try done.
    + intros H'. destruct H'. by exists t.
    + intros _ (t' & [= <-] & ?). lia.
    + by intros _ (t' & ? & ?).
  - rewrite checkDuplicateContent_outcome, accepted_record by done.
    repeat case_bool_decide; try done; lia.
Qed.

Lemma checkDuplicateContent_key_witness :
  (checkDuplicateContent (lit "u1") (lit "same text") (lit "createModule") 30000 5000
     (checkDuplicateContent (lit "u1") (lit "same text") (lit "createComment")
        30000 1000 ∅).2).1
  = Throw DuplicateSubmissionError
  ∧ (checkDuplicateContent (lit "u1") (lit "same text") (lit "createModule") 30000 31000
       (checkDuplicateContent (lit "u1") (lit "same text") (lit "createComment")
          30000 1000 ∅).2).1
    = Return true.
Proof.
  split.
  - refine (proj2 (proj2 (proj2 (proj2
      (checkDuplicateContent_key (lit "u1") (lit "same text") (lit "createComment")
         (lit "createModule") 30000 1000 5000 ∅ _ _))))).
    + intros t Ht. by rewrite lookup_empty in Ht.
    + lia.
  - refine (proj2 (proj2 (proj2 (proj2
      (checkDuplicateContent_key (lit "u1") (lit "same text") (lit "createComment")
         (lit "createModule") 30000 1000 31000 ∅ _ _))))).
    + intros t Ht. by rewrite lookup_empty in Ht.
    + lia.
Defined.

(** C8. After a call of [checkDuplicateContent] that returns, no entry of
    the store is older than twice the window, whatever its key: every entry
    of the previous store with [now - t > 2 * windowMs] under another key is
    gone, and the other entries under other keys are kept. *)
Theorem checkDuplicateContent_sweep (userId content action : list N)
    (windowMs now : Z) (st : gmap (list N) Z) :
  (checkDuplicateContent userId content action windowMs now st).1 = Return true →
  (∀ (k : list N) (t : Z),
     (checkDuplicateContent userId content action windowMs now st).2 !! k = Some t →
     ¬ (now - t > 2 * windowMs)%Z)
  ∧ (∀ (k : list N) (t : Z),
       st !! k = Some t → (now - t > 2 * windowMs)%Z →
       k ≠ userId ++ lit ":" ++ take 100 content →
       (checkDuplicateContent userId content action windowMs now st).2 !! k = None)
  ∧ (∀ (k : list N) (t : Z),
       st !! k = Some t → ¬ (now - t > 2 * windowMs)%Z →
       k ≠ userId ++ lit ":" ++ take 100 content →
       (checkDuplicateContent userId content action windowMs now st).2 !! k = Some t).
Proof.
  intros Hret. rewrite checkDuplicateContent_accepted_store by done.
  split; [|split].
  - intros k t [_ Hyoung]%map_lookup_filter_Some. simpl in Hyoung. lia.
  - intros k t Hk Hold Hne. apply map_lookup_filter_None. right.
    intros t'. rewrite lookup_insert_ne by done. rewrite Hk. intros [= <-].
    simpl. lia.
  - intros k t Hk Hyoung Hne. apply map_lookup_filter_Some.
    rewrite lookup_insert_ne by done. split; [done|]. simpl. lia.
Qed.

Lemma checkDuplicateContent_sweep_witness :
  (checkDuplicateContent (lit "u1") (lit "new text") (lit "createComment") 30000 100000
     {[ lit "u2:old text" := 0%Z ]}).2 !! lit "u2:old text" = None.
Proof.
  refine (proj1 (proj2
    (checkDuplicateContent_sweep (lit "u1") (lit "new text") (lit "createComment")
       30000 100000 {[ lit "u2:old text" := 0%Z ]} _)) (lit "u2:old text") 0%Z _ _ _).
  - rewrite checkDuplicateContent_outcome. by rewrite lookup_singleton_ne.
  - apply lookup_singleton_eq.
  - lia.
  - by vm_compute.
Defined.

(** C9. A call of [checkDuplicateContent] that throws leaves the store as
    it was: the record under the colliding key keeps its time and nothing
    is swept. So after an accepted submission at [t0], however many
    rejected attempts follow, the store is still the one the accepted
    submission left, and a resubmission of that content once [windowMs] has
    passed since [t0] is accepted. *)
Theorem checkDuplicateContent_rejection (userId content action action' : list N)
    (windowMs t0 now : Z) (st : gmap (list N) Z)
    (attempts : list (list N * list N * list N * Z * Z)) :
  (checkDuplicateContent userId content action windowMs t0 st).1 = Return true →
  Forall (λ o, is_return o = false)
    (duplicateCalls attempts
       (checkDuplicateContent userId content action windowMs t0 st).2).1 →
  (windowMs ≤ now - t0)%Z →
  (∀ (u c a : list N) (w t : Z) (s : gmap (list N) Z) (e : list N),
     (checkDuplicateContent u c a w t s).1 = Throw e →
     (checkDuplicateContent u c a w t s).2 = s)
  ∧ (duplicateCalls attempts
       (checkDuplicateContent userId content action windowMs t0 st).2).2
    = (checkDuplicateContent userId content action windowMs t0 st).2
  ∧ (checkDuplicateContent userId content action' windowMs now
       (duplicateCalls attempts
          (checkDuplicateContent userId content action windowMs t0 st).2).2).1
    = Return true.
Proof.
  intros Hacc Hrej Hlate.
  split; [intros; by eapply checkDuplicateContent_rejected_store|].
  rewrite rejected_attempts_keep_store by done. split; [done|].
  rewrite checkDuplicateContent_outcome, accepted_record by done.
  case_bool_decide; [|done]. by rewrite bool_decide_eq_false_2 by lia.
Qed.

Lemma checkDuplicateContent_rejection_witness :
  (checkDuplicateContent (lit "u1") (lit "same text") (lit "createComment") 30000 30000
     (duplicateCalls
        [ (lit "u1", lit "same text", lit "createComment", 30000, 10000);
          (lit "u1", lit "same text", lit "createModule", 30000, 29999) ]%Z
        (checkDuplicateContent (lit "u1") (lit "same text") (lit "createComment")
           30000 0 ∅).2).2).1
  = Return true.
Proof.
  refine (proj2 (proj2
    (checkDuplicateContent_rejection (lit "u1") (lit "same text") (lit "createComment")
       (lit "createComment") 30000 0 30000 ∅
       [ (lit "u1", lit "same text", lit "createComment", 30000, 10000);
         (lit "u1", lit "same text", lit "createModule", 30000, 29999) ]%Z _ _ _))).
  - by vm_compute.
  - vm_compute. repeat constructor.
  - lia.
Defined.

(* ===================================================================== *)
(** ** The role hierarchy                                                *)
(* ===================================================================== *)

Lemma ROLE_HIERARCHY_lookup (r : list N) :
  ROLE_HIERARCHY !! r
  = if bool_decide (r = ROLES.SYSADMIN) then Some (VNum (of_Z 3))
    else if bool_decide (r = ROLES.PROGRAM_OWNER) then Some (VNum (of_Z 2))
    else if bool_decide (r = ROLES.OPERATIONS) then Some (VNum (of_Z 1))
    else None.
Proof.
  unfold ROLE_HIERARCHY. cbn [list_to_map foldr fst snd].
  rewrite !lookup_insert, lookup_empty.
  repeat case_decide; repeat case_bool_decide; congruence.
Qed.

(** The level the code works with, for a role that names nothing inherited. *)
Lemma level_of_plain_role (r : list N) :
  assoc r Object_prototype = None →
  or_else (get ROLE_HIERARCHY r) (VNum (of_Z 0)) = VNum (of_Z (hierarchyLevel r)).
Proof.
  intros Hr. unfold get, hierarchyLevel. rewrite ROLE_HIERARCHY_lookup, Hr.
  repeat case_bool_decide; reflexivity.
Qed.

Lemma level_cases (r : list N) :
  hierarchyLevel r = 3%Z ∨ hierarchyLevel r = 2%Z ∨ hierarchyLevel r = 1%Z ∨ hierarchyLevel r = 0%Z.
Proof. unfold hierarchyLevel. repeat case_bool_decide; auto. Qed.

(** Against a required role, inherited name or not, a numeric level passes
    exactly when it reaches the required level. *)
Lemma level_comparison (n : Z) (m : list N) :
  (0 ≤ n ≤ 3)%Z →
  less_than (VNum (of_Z n)) (or_else (get ROLE_HIERARCHY m) (VNum (of_Z 0)))
  = bool_decide (n < hierarchyLevel m)%Z.
Proof.
  intros Hn.
  assert (n = 0 ∨ n = 1 ∨ n = 2 ∨ n = 3)%Z as Hn' by lia. clear Hn.
  unfold get, hierarchyLevel. rewrite ROLE_HIERARCHY_lookup.
  destruct (bool_decide (m = ROLES.SYSADMIN));
    [destruct Hn' as [->|[->|[->| ->]]]; by vm_compute|].
  destruct (bool_decide (m = ROLES.PROGRAM_OWNER));
    [destruct Hn' as [->|[->|[->| ->]]]; by vm_compute|].
  destruct (bool_decide (m = ROLES.OPERATIONS));
    [destruct Hn' as [->|[->|[->| ->]]]; by vm_compute|].
  destruct (assoc m Object_prototype) as [v|] eqn:E.
  - unfold Object_prototype in E. cbn [assoc] in E.
    repeat case_bool_decide; simplify_eq;
      destruct Hn' as [->|[->|[->| ->]]]; by vm_compute.
  - destruct Hn' as [->|[->|[->| ->]]]; by vm_compute.
Qed.

(** For a role that names no inherited property the check is the
    comparison of levels the specification describes. *)
Lemma requireMinRole_plain_role (ctx : UserContext) (minRole : list N) :
  assoc (role ctx) Object_prototype = None →
  requireMinRole ctx minRole
  = if bool_decide (hierarchyLevel (role ctx) >= hierarchyLevel minRole)%Z
    then Return true
    else Throw (ForbiddenError (lit "Requires minimum role: " ++ minRole)).
Proof.
  intros Hr. unfold requireMinRole. rewrite level_of_plain_role by done.
  rewrite level_comparison by (destruct (level_cases (role ctx)) as [->|[->|[->| ->]]]; lia).
  repeat case_bool_decide; try lia; reflexivity.
Qed.

(** C6, at a role that names an inherited property of the hierarchy object.
    The claim gives such a role level 0, so [requireMinRole] should refuse
    it against sysadmin (level 3); the code takes the inherited function for
    the level, the comparison with 3 is false, and the check passes. *)
Theorem requireMinRole_inherited_role :
  requireMinRole (ctx_of (lit "constructor")) ROLES.SYSADMIN = Return true
  ∧ hierarchyLevel (lit "constructor") = 0%Z
  ∧ hierarchyLevel ROLES.SYSADMIN = 3%Z.
Proof. repeat split; by vm_compute. Qed.

(* ===================================================================== *)
(** ** Ownership and the active-round gate                               *)
(* ===================================================================== *)

Lemma documents_record (o : store_op) (w : world) (c : list N) :
  documents (record o w) c = documents w c.
Proof. reflexivity. Qed.

Lemma strict_eq_VStr (x : value) (s : list N) :
  strict_eq x (VStr s) = bool_decide (x = VStr s).
Proof.
  destruct x; cbn [strict_eq]; try (by rewrite bool_decide_eq_false_2).
  repeat case_bool_decide; congruence.
Qed.

Lemma matches_status (d : gmap (list N) value) :
  matches (lit "status") (VStr (lit "active")) d
  = bool_decide (d !! lit "status" = Some (VStr (lit "active"))).
Proof.
  unfold matches. destruct (d !! lit "status") as [x|].
  - rewrite strict_eq_VStr. repeat case_bool_decide; congruence.
  - by rewrite bool_decide_eq_false_2.
Qed.

Lemma requireActiveCertificationRound_outcome (w : world) :
  requireActiveCertificationRound w
  = (match active_rounds w with
     | [] => Throw (ForbiddenError
                      (lit "No active certification round. Changes are not allowed."))
     | d :: _ => Return d
     end,
     record (OpQuery (lit "certificationRounds") (lit "status")
               (VStr (lit "active")) 1) w).
Proof.
  unfold requireActiveCertificationRound, active_rounds, mbind, M_bind, query_eq.
  erewrite (List.filter_ext _ _ matches_status).
  destruct (List.filter _ _) as [|d rest]; reflexivity.
Qed.

(** The checks of [authorizeRequest] read the store and never write it. *)
Lemma authenticateUser_store (request : Request) (w : world) :
  store (authenticateUser request w).2 = store w.
Proof.
  unfold authenticateUser. destruct (auth request) as [a|]; [|reflexivity].
  unfold mbind, M_bind, doc_get. cbn [fst snd].
  destruct (find_doc _ _) as [userData|]; [|reflexivity].
  destruct (negb _); [reflexivity|].
  destruct (if truthy _ then _ else _); reflexivity.
Qed.

Lemma requireOwnership_outcome (ctx : UserContext) (rt rid : list N)
    (owner : option (list N)) (w : world) :
  requireOwnership ctx rt rid owner w
  = if bool_decide (role ctx = ROLES.SYSADMIN) then (Return true, w)
    else (match find_doc rid (documents w rt) with
          | None => Throw (NotFoundError rt)
          | Some d =>
              if bool_decide (get d (default (lit "createdBy") owner)
                              = VStr (userId ctx))
              then Return true
              else Throw (ForbiddenError (lit "You do not own this " ++ rt))
          end, record (OpGet rt rid) w).
Proof.
  unfold requireOwnership. case_bool_decide; [reflexivity|].
  unfold mbind, M_bind, doc_get.
  destruct (find_doc rid (documents w rt)) as [d|]; [|reflexivity].
  rewrite strict_eq_VStr. by case_bool_decide.
Qed.

(** C3. For a sysadmin [requireOwnership] returns true and leaves the world
    as it is: no document is fetched. For any other role it fetches the
    document [resourceId] of [resourceType] (the fetch is recorded), throws
    the not-found error when there is none, throws the forbidden error when
    the document's owner field (createdBy unless another is given) is not
    the caller's user id, and returns true otherwise. *)
Theorem requireOwnership_cases (ctx : UserContext) (rt rid : list N)
    (owner : option (list N)) (w : world) :
  (role ctx = ROLES.SYSADMIN →
     requireOwnership ctx rt rid owner w = (Return true, w))
  ∧ (role ctx ≠ ROLES.SYSADMIN →
     (requireOwnership ctx rt rid owner w).2 = record (OpGet rt rid) w
     ∧ (find_doc rid (documents w rt) = None →
        (requireOwnership ctx rt rid owner w).1 = Throw (NotFoundError rt))
     ∧ (∀ d, find_doc rid (documents w rt) = Some d →
        get d (default (lit "createdBy") owner) ≠ VStr (userId ctx) →
        (requireOwnership ctx rt rid owner w).1
        = Throw (ForbiddenError (lit "You do not own this " ++ rt)))
     ∧ (∀ d, find_doc rid (documents w rt) = Some d →
        get d (default (lit "createdBy") owner) = VStr (userId ctx) →
        (requireOwnership ctx rt rid owner w).1 = Return true)).
Proof.
  rewrite requireOwnership_outcome. split; intros Hrole.
  - by rewrite bool_decide_eq_true_2.
  - rewrite bool_decide_eq_false_2 by done. cbn [fst snd].
    split; [done|]. split; [by intros ->|]. split; intros d -> Hd.
    + by rewrite bool_decide_eq_false_2.
    + by rewrite bool_decide_eq_true_2.
Qed.

Lemma requireOwnership_cases_witness :
  requireOwnership sysadmin_ctx (lit "modules") (lit "m1") None (world_of [])
  = (Return true, world_of [])
  ∧ (requireOwnership (ctx_of (lit "operations")) (lit "modules") (lit "m1") None
       (world_of [])).1
    = Throw (ForbiddenError (lit "You do not own this modules"))
  ∧ (requireOwnership (ctx_of (lit "operations")) (lit "modules") (lit "m2") None
       (world_of [])).1
    = Throw (NotFoundError (lit "modules")).
Proof.
  split; [|split].
  - apply (proj1 (requireOwnership_cases sysadmin_ctx (lit "modules") (lit "m1") None
                    (world_of []))).
    reflexivity.
  - refine (proj1 (proj2 (proj2 (proj2
      (requireOwnership_cases (ctx_of (lit "operations")) (lit "modules") (lit "m1")
         None (world_of [])) _))) foreign_module _ _).
    + by vm_compute.
    + by vm_compute.
    + by vm_compute.
  - refine (proj1 (proj2 (proj2
      (requireOwnership_cases (ctx_of (lit "operations")) (lit "modules") (lit "m2")
         None (world_of [])) _)) _).
    + by vm_compute.
    + by vm_compute.
Defined.

Lemma active_rounds_store (w w' : world) :
  store w' = store w → active_rounds w' = active_rounds w.
Proof. intros H. unfold active_rounds, documents. by rewrite H. Qed.

Lemma requireOwnership_store (ctx : UserContext) (rt rid : list N)
    (owner : option (list N)) (w w' : world) :
  store w' = store w →
  (requireOwnership ctx rt rid owner w').1 = (requireOwnership ctx rt rid owner w).1.
Proof.
  intros H. rewrite !requireOwnership_outcome. unfold documents. rewrite H.
  by case_bool_decide.
Qed.

(** [authorizeRequest] once the caller is authenticated and the role checks
    pass: what is left is the round gate and the ownership check. *)
Lemma authorizeRequest_after_roles (request : Request) (options : Options)
    (ctx : UserContext) (w w1 : world) :
  authenticateUser request w = (Return ctx, w1) →
  (∀ r, opt_requireRoles options = Some r → roles_given r = true →
        requireRole ctx r = Return true) →
  (∀ m, opt_requireMinRole options = Some m → nonempty m = true →
        requireMinRole ctx m = Return true) →
  authorizeRequest request options w
  = (activeRound ←
       (if opt_requireActiveRound options
        then Some <$> requireActiveCertificationRound else mret None);
     _ ← match opt_requireOwnership options with
         | Some o =>
             requireOwnership ctx (resourceType o) (resourceId o) (ownerField o)
         | None => mret true
         end;
     mret {| userContext := ctx; activeRound := activeRound |}) w1.
Proof.
  intros Hauth Hroles Hmin. unfold authorizeRequest.
  unfold mbind at 1. unfold M_bind at 1. rewrite Hauth.
  unfold mbind at 1. unfold M_bind at 1.
  assert (match opt_requireRoles options with
          | Some requireRoles =>
              if roles_given requireRoles
              then lift (requireRole ctx requireRoles) else mret true
          | None => mret true
          end w1 = (Return true, w1)) as ->.
  { destruct (opt_requireRoles options) as [r|]; [|reflexivity].
    destruct (roles_given r) eqn:E; [|reflexivity].
    unfold lift. by rewrite Hroles. }
  unfold mbind at 1. unfold M_bind at 1.
  assert (match opt_requireMinRole options with
          | Some minRole =>
              if nonempty minRole
              then lift (requireMinRole ctx minRole) else mret true
          | None => mret true
          end w1 = (Return true, w1)) as ->.
  { destruct (opt_requireMinRole options) as [m|]; [|reflexivity].
    destruct (nonempty m) eqn:E; [|reflexivity].
    unfold lift. by rewrite Hmin. }
  reflexivity.
Qed.

Lemma authorizeRequest_gate_outcome (request : Request) (options : Options)
    (ctx : UserContext) (w w1 : world) :
  authenticateUser request w = (Return ctx, w1) →
  (∀ r, opt_requireRoles options = Some r → roles_given r = true →
        requireRole ctx r = Return true) →
  (∀ m, opt_requireMinRole options = Some m → nonempty m = true →
        requireMinRole ctx m = Return true) →
  opt_requireActiveRound options = true →
  (authorizeRequest request options w).1
  = match active_rounds w with
    | [] => Throw (ForbiddenError
                     (lit "No active certification round. Changes are not allowed."))
    | d :: _ =>
        match opt_requireOwnership options with
        | Some o =>
            _ ← (requireOwnership ctx (resourceType o) (resourceId o)
                   (ownerField o) w).1;
            Return {| userContext := ctx; activeRound := Some d |}
        | None => Return {| userContext := ctx; activeRound := Some d |}
        end
    end.
Proof.
  intros Hauth Hroles Hmin Hgate.
  rewrite (authorizeRequest_after_roles _ _ _ _ _ Hauth Hroles Hmin), Hgate.
  assert (Hstore : store w1 = store w).
  { pose proof (authenticateUser_store request w) as H. by rewrite Hauth in H. }
  unfold mbind at 1. unfold M_bind at 1. unfold fmap at 1. unfold M_fmap at 1.
  rewrite requireActiveCertificationRound_outcome.
  rewrite (active_rounds_store _ _ Hstore).
  destruct (active_rounds w) as [|d rest]; [reflexivity|].
  unfold mbind at 1. unfold M_bind at 1.
  destruct (opt_requireOwnership options) as [o|]; [|reflexivity].
  rewrite <- (requireOwnership_store ctx _ _ _ w
                (record (OpQuery (lit "certificationRounds") (lit "status")
                           (VStr (lit "active")) 1) w1)) by done.
  by destruct (requireOwnership ctx _ _ _ (record _ w1)) as [[b|e] w3].
Qed.

(** C2. [requireActiveCertificationRound] throws the forbidden error "No
    active certification round. Changes are not allowed." when no round has
    status "active" and returns the data of the first such round otherwise.
    For a caller of any role who is authenticated and passes the role
    checks, [authorizeRequest] with [requireActiveRound] set throws that
    error when there is no active round; when there is one (and the
    ownership check, if asked for, passes) it returns the caller's context
    with that round's data as [activeRound]. *)
Theorem active_round_gate (request : Request) (options : Options)
    (ctx : UserContext) (w w1 : world) :
  authenticateUser request w = (Return ctx, w1) →
  (∀ r, opt_requireRoles options = Some r → roles_given r = true →
        requireRole ctx r = Return true) →
  (∀ m, opt_requireMinRole options = Some m → nonempty m = true →
        requireMinRole ctx m = Return true) →
  opt_requireActiveRound options = true →
  (∀ w0 : world,
     (requireActiveCertificationRound w0).1
     = match active_rounds w0 with
       | [] => Throw (ForbiddenError
                        (lit "No active certification round. Changes are not allowed."))
       | d :: _ => Return d
       end)
  ∧ (active_rounds w = [] →
     (authorizeRequest request options w).1
     = Throw (ForbiddenError
                (lit "No active certification round. Changes are not allowed.")))
  ∧ (∀ d rest, active_rounds w = d :: rest →
     (∀ o, opt_requireOwnership options = Some o →
           (requireOwnership ctx (resourceType o) (resourceId o) (ownerField o) w).1
           = Return true) →
     (authorizeRequest request options w).1
     = Return {| userContext := ctx; activeRound := Some d |}).
Proof.
  intros Hauth Hroles Hmin Hgate.
  split; [intros w0; by rewrite requireActiveCertificationRound_outcome|].
  rewrite (authorizeRequest_gate_outcome _ _ _ _ _ Hauth Hroles Hmin Hgate).
  split.
  - by intros ->.
  - intros d rest -> Hown.
    destruct (opt_requireOwnership options) as [o|]; [|reflexivity].
    by rewrite (Hown o eq_refl).
Qed.

Lemma active_round_gate_witness :
  (authorizeRequest sysadmin_request gated (world_of [(lit "r1", closed_round)])).1
  = Throw (ForbiddenError (lit "No active certification round. Changes are not allowed."))
  ∧ (authorizeRequest sysadmin_request gated
       (world_of [(lit "r1", closed_round); (lit "r2", open_round)])).1
    = Return {| userContext := sysadmin_ctx; activeRound := Some open_round |}.
Proof.
  split.
  - refine (proj1 (proj2
      (active_round_gate sysadmin_request gated sysadmin_ctx
         (world_of [(lit "r1", closed_round)])
         (record (OpGet (lit "users") (lit "admin1"))
            (world_of [(lit "r1", closed_round)]))
         _ _ _ _)) _).
    + by vm_compute.
    + intros r [=].
    + intros m [= <-] _. by vm_compute.
    + reflexivity.
    + by vm_compute.
  - refine (proj2 (proj2
      (active_round_gate sysadmin_request gated sysadmin_ctx
         (world_of [(lit "r1", closed_round); (lit "r2", open_round)])
         (record (OpGet (lit "users") (lit "admin1"))
            (world_of [(lit "r1", closed_round); (lit "r2", open_round)]))
         _ _ _ _)) open_round [] _ _).
    + by vm_compute.
    + intros r [=].
    + intros m [= <-] _. by vm_compute.
    + reflexivity.
    + by vm_compute.
    + intros o [=].
Defined.

(* ===================================================================== *)
(** ** The audit log                                                     *)
(* ===================================================================== *)

Lemma logAudit_outcome (action : list N) (ctx : UserContext)
    (rt rid : list N) (details : gmap (list N) value) (w : world) :
  logAudit action ctx rt rid details w
  = (Return (),
     match write_faults w with
     | Some e :: rest =>
         World (store w) (auditLogs w) rest (ops w ++ [OpAdd (lit "auditLogs")])
           (console w ++ [(lit "Audit log failed:", e)])
     | faults =>
         World (store w) (auditLogs w ++ [audit_entry action ctx rt rid details])
           (tail faults) (ops w ++ [OpAdd (lit "auditLogs")]) (console w)
     end).
Proof.
  unfold logAudit, try_catch, audit_add, console_error, record.
  cbn [write_faults store auditLogs ops console].
  by destruct (write_faults w) as [|[e|] rest].
Qed.

(** C7. [logAudit] never throws: whatever the action, the user context,
    the resource, the details and the fate of the write, it returns; the
    documents of the store are untouched; when the write is rejected the
    error goes to the console and nowhere else, otherwise the entry is
    appended to the audit log; and whatever the caller does next runs on the
    world [logAudit] left. *)
Theorem logAudit_never_throws (action : list N) (ctx : UserContext)
    (rt rid : list N) (details : gmap (list N) value) (w : world) :
  (logAudit action ctx rt rid details w).1 = Return ()
  ∧ store (logAudit action ctx rt rid details w).2 = store w
  ∧ match write_faults w with
    | Some e :: _ =>
        auditLogs (logAudit action ctx rt rid details w).2 = auditLogs w
        ∧ console (logAudit action ctx rt rid details w).2
          = console w ++ [(lit "Audit log failed:", e)]
    | _ =>
        auditLogs (logAudit action ctx rt rid details w).2
        = auditLogs w ++ [audit_entry action ctx rt rid details]
        ∧ console (logAudit action ctx rt rid details w).2 = console w
    end
  ∧ (∀ (A : Type) (governed : M A),
       (_ ← logAudit action ctx rt rid details; governed) w
       = governed (logAudit action ctx rt rid details w).2).
Proof.
  split; [|split; [|split]].
  - by rewrite logAudit_outcome.
  - rewrite logAudit_outcome. by destruct (write_faults w) as [|[e|] rest].
  - rewrite logAudit_outcome. by destruct (write_faults w) as [|[e|] rest].
  - intros A governed. unfold mbind, M_bind. by rewrite logAudit_outcome.
Qed.

(* ===================================================================== *)
(** ** Falsy numeric fields of a module                                  *)
(* ===================================================================== *)

Lemma get_insert_eq (d : gmap (list N) value) (k : list N) (v : value) :
  get (<[k := v]> d) k = v.
Proof. unfold get. by rewrite lookup_insert_eq. Qed.

Lemma get_insert_ne (d : gmap (list N) value) (k k' : list N) (v : value) :
  k ≠ k' → get (<[k := v]> d) k' = get d k'.
Proof. intros H. unfold get. by rewrite lookup_insert_ne. Qed.

Lemma get_delete_ne (d : gmap (list N) value) (k k' : list N) :
  k ≠ k' → get (delete k d) k' = get d k'.
Proof. intros H. unfold get. by rewrite lookup_delete_ne. Qed.

Lemma get_delete_eq (d : gmap (list N) value) (k : list N) :
  assoc k Object_prototype = None → get (delete k d) k = VUndefined.
Proof. intros H. unfold get. by rewrite lookup_delete_eq, H. Qed.

Lemma bind_Return {A B} (m : outcome A) (k : A → outcome B) (b : B) :
  m ≫= k = Return b → ∃ a, m = Return a ∧ k a = Return b.
Proof. destruct m as [a|e]; [|done]. intros H. by exists a. Qed.

Ltac lit_ne := let E := fresh in intros E; vm_compute in E; discriminate.

Ltac other_fields :=
  rewrite ?get_insert_ne by lit_ne; rewrite ?get_delete_ne by lit_ne.

Lemma falsy_numeric_as_absent (data : gmap (list N) value) (v : value) (f : list N) :
  truthy v = false →
  f ∈ [lit "pricePerUE"; lit "pricePerModule"; lit "ue45"; lit "weeks"] →
  validateModuleInput (<[f := v]> data) = validateModuleInput (delete f data).
Proof.
  intros Hv Hf. unfold validateModuleInput. cbn zeta.
  repeat (apply elem_of_cons in Hf as [->|Hf]); [| | | |by apply elem_of_nil in Hf];
    rewrite !get_insert_eq, !get_delete_eq by (by vm_compute);
    other_fields; rewrite Hv; reflexivity.
Qed.

Lemma falsy_numeric_is_null (data : gmap (list N) value) (v : value) (f : list N)
    (validated : ValidatedModule) :
  truthy v = false →
  f ∈ [lit "pricePerUE"; lit "pricePerModule"; lit "ue45"; lit "weeks"] →
  validateModuleInput (<[f := v]> data) = Return validated →
  numeric_field f validated = None.
Proof.
  intros Hv Hf. unfold validateModuleInput. cbn zeta.
  repeat (apply elem_of_cons in Hf as [->|Hf]); [| | | |by apply elem_of_nil in Hf];
    rewrite !get_insert_eq, Hv; intros H;
    repeat (apply bind_Return in H as (? & ? & H));
    injection H as <-;
    repeat match goal with
           | E : _ = Return ?x |- _ => is_var x; injection E as <-
           end; reflexivity.
Qed.

(** C10. In [validateModuleInput] a falsy raw value (the number 0, the empty
    string, ...) of pricePerUE, pricePerModule, ue45 or weeks is never
    handed to [validateNumber]: the outcome is the one for a payload
    without the field, and when the payload validates the field of the
    record is null. Yet 0 is inside the range from 0 to 1000000 that
    [validateNumber] is given for the two prices. *)
Theorem validateModuleInput_falsy_numeric (data : gmap (list N) value)
    (v : value) (f : list N) :
  truthy v = false →
  f ∈ [lit "pricePerUE"; lit "pricePerModule"; lit "ue45"; lit "weeks"] →
  validateModuleInput (<[f := v]> data) = validateModuleInput (delete f data)
  ∧ (∀ validated : ValidatedModule,
       validateModuleInput (<[f := v]> data) = Return validated →
       numeric_field f validated = None)
  ∧ truthy (VNum (of_Z 0)) = false
  ∧ truthy (VStr []) = false
  ∧ validateNumber (VNum (of_Z 0)) 0 1000000 (lit "Price per UE") = Return (of_Z 0)
  ∧ validateNumber (VNum (of_Z 0)) 0 1000000 (lit "Price per Module")
    = Return (of_Z 0).
Proof.
  intros Hv Hf. split; [by apply falsy_numeric_as_absent|].
  split; [intros validated; by apply falsy_numeric_is_null|].
  repeat split; by vm_compute.
Qed.

Lemma validateModuleInput_falsy_numeric_witness :
  (∃ validated : ValidatedModule,
     validateModuleInput (<[lit "pricePerUE" := VNum (of_Z 0)]> module_payload)
     = Return validated)
  ∧ ∀ validated : ValidatedModule,
      validateModuleInput (<[lit "pricePerUE" := VNum (of_Z 0)]> module_payload)
      = Return validated →
      numeric_field (lit "pricePerUE") validated = None.
Proof.
  split.
  - eexists. by vm_compute.
  - refine (proj1 (proj2
      (validateModuleInput_falsy_numeric module_payload (VNum (of_Z 0))
         (lit "pricePerUE") _ _))).
    + reflexivity.
    + by left.
Defined.

(* ===================================================================== *)
(** ** The sanitizer: what it keeps                                       *)
(* ===================================================================== *)

Lemma sanitizeString_scan (s : list N) :
  sanitizeString (VStr s)
  = take 10000
      (strip_script_elements
         (List.filter (λ c, negb (is_control_char c)) (trim s)) 0).
Proof. unfold sanitizeString. by rewrite replace_control_chars, replace_script_tags. Qed.

Lemma sanitizeString_length (v : value) : (length (sanitizeString v) ≤ 10000)%nat.
Proof.
  destruct v; simpl; try apply Nat.le_0_l. rewrite length_take. apply Nat.le_min_l.
Qed.

Lemma strip_script_elements_sublist (s : list N) : ∀ n : nat,
  strip_script_elements s n `sublist_of` s.
Proof.
  induction s as [|x s IH]; intros n; [done|].
  cbn [strip_script_elements].
  destruct n as [|n]; [|by apply sublist_cons].
  destruct (script_element (x :: s)) as [r|].
  - destruct (length (x :: s) - length r)%nat;
      [by apply sublist_skip|by apply sublist_cons].
  - by apply sublist_skip.
Qed.

Lemma trim_sublist (s : list N) : trim s `sublist_of` s.
Proof.
  destruct (trim_surrounding s) as (l & r & Hs & _).
  rewrite Hs at 2. apply sublist_inserts_l, sublist_inserts_r. done.
Qed.

Lemma sanitizeString_sublist (s : list N) : sanitizeString (VStr s) `sublist_of` s.
Proof.
  rewrite sanitizeString_scan.
  etrans; [apply sublist_take|]. etrans; [apply strip_script_elements_sublist|].
  etrans; [|apply trim_sublist].
  induction (trim s) as [|x t IH]; [done|].
  cbn [List.filter]. destruct (negb _); [by apply sublist_skip|by apply sublist_cons].
Qed.

Lemma sanitizeString_no_control (v : value) :
  Forall (λ c, is_control_char c = false) (sanitizeString v).
Proof.
  destruct v as [| | | |s|]; try by constructor.
  rewrite sanitizeString_scan. apply Forall_forall. intros c Hc.
  assert (c ∈ List.filter (λ c, negb (is_control_char c)) (trim s)) as Hin.
  { eapply elem_of_sublist; [exact Hc|].
    etrans; [apply sublist_take|]. apply strip_script_elements_sublist. }
  apply list_elem_of_In, filter_In in Hin. destruct Hin as [_ Hin].
  by apply negb_true_iff.
Qed.

(** X1. [sanitizeString] only deletes: its result is the text with some
    code units left out, in the same order, and none of the code units it
    keeps is a control character of the pattern (0x00-0x08, 0x0B, 0x0C,
    0x0E-0x1F, 0x7F). *)
Theorem sanitizeString_keeps_no_control (s : list N) :
  sanitizeString (VStr s) `sublist_of` s
  ∧ Forall (λ c, is_control_char c = false) (sanitizeString (VStr s)).
Proof. split; [apply sanitizeString_sublist|apply sanitizeString_no_control]. Qed.

(** A code unit other than [<] starts no script markup. *)
Lemma script_element_not_lt (x : N) (s : list N) :
  x ≠ 60%N → script_element (x :: s) = None.
Proof.
  intros Hx. unfold script_element.
  change (lit "<script") with (60%N :: lit "script"). cbn [starts_with].
  rewrite canonicalize_lt. by destruct (N.eqb_spec x 60).
Qed.

Lemma strip_plain_run (p rest : list N) :
  Forall (λ c, c ≠ 60%N) p →
  strip_script_elements (p ++ rest) 0 = p ++ strip_script_elements rest 0.
Proof.
  induction 1 as [|x p Hx Hp IH]; [done|].
  cbn [app strip_script_elements]. rewrite script_element_not_lt by done.
  by rewrite IH.
Qed.

Lemma filter_clean (p : list N) :
  Forall (λ c, is_control_char c = false) p →
  List.filter (λ c, negb (is_control_char c)) p = p.
Proof.
  induction 1 as [|x p Hx Hp IH]; [done|].
  cbn [List.filter]. by rewrite Hx, IH.
Qed.

Lemma trim_no_op (x y : N) (m : list N) :
  is_whitespace x = false → is_whitespace y = false →
  trim (x :: m ++ [y]) = x :: m ++ [y].
Proof.
  intros Hx Hy. unfold trim. cbn [drop_while]. rewrite Hx.
  change (x :: m ++ [y]) with ((x :: m) ++ [y]).
  rewrite rev_app_distr. cbn [rev app drop_while]. rewrite Hy.
  change (y :: rev m ++ [x]) with ([y] ++ rev (x :: m)).
  by rewrite rev_app_distr, rev_involutive.
Qed.

Lemma strip_skip (m s : list N) :
  strip_script_elements (m ++ s) (length m) = strip_script_elements s 0.
Proof. induction m as [|x m IH]; [done|]. exact IH. Qed.

(** Markup found at the head of the text is dropped whole. *)
Lemma strip_markup (x : N) (m r : list N) :
  script_element (x :: m ++ r) = Some r →
  strip_script_elements (x :: m ++ r) 0 = strip_script_elements r 0.
Proof.
  intros H. cbn [strip_script_elements]. rewrite H.
  replace (length (x :: m ++ r) - length r)%nat with (S (length m))
    by (cbn [length]; rewrite length_app; lia).
  apply strip_skip.
Qed.

Lemma strip_keep (x : N) (s : list N) :
  script_element (x :: s) = None →
  strip_script_elements (x :: s) 0 = x :: strip_script_elements s 0.
Proof. intros H. cbn [strip_script_elements]. by rewrite H. Qed.

(** X2. The script markup is removed in one pass, so markup wrapped around
    markup survives: for any text [p] without [<] and without control
    characters, sanitizing [<scr<script></script>ipt>p</script>] removes the
    inner element only and returns [<script>p</script>]. *)
Theorem sanitizeString_nested_markup_survives (p : list N) :
  Forall (λ c, c ≠ 60%N) p →
  Forall (λ c, is_control_char c = false) p →
  (length p + 17 ≤ 10000)%nat →
  sanitizeString (VStr (lit "<scr<script></script>ipt>" ++ p ++ lit "</script>"))
  = lit "<script>" ++ p ++ lit "</script>".
Proof.
  intros Hlt Hctl Hlen.
  rewrite sanitizeString_scan.
  assert (Eshape : lit "<scr<script></script>ipt>" ++ p ++ lit "</script>"
                   = 60%N :: (lit "scr<script></script>ipt>" ++ p ++ lit "</script")
                       ++ [62%N]).
  { change (lit "</script>") with (lit "</script" ++ [62%N]).
    by rewrite !app_assoc. }
  rewrite Eshape, trim_no_op by done. rewrite <- Eshape.
  rewrite filter_clean.
  2:{ apply Forall_app. split; [by vm_compute; repeat constructor|].
      apply Forall_app. split; [done|by vm_compute; repeat constructor]. }
  assert (Estrip : strip_script_elements
                     (lit "<scr<script></script>ipt>" ++ p ++ lit "</script>") 0
                   = lit "<script>" ++ p ++ lit "</script>").
  { change (lit "<scr<script></script>ipt>" ++ p ++ lit "</script>")
      with (60%N :: 115%N :: 99%N :: 114%N
              :: 60%N :: lit "script></script>" ++ lit "ipt>" ++ p ++ lit "</script>").
    rewrite strip_keep by (by vm_compute).
    rewrite !strip_keep by (by apply script_element_not_lt).
    rewrite strip_markup by (by vm_compute).
    rewrite app_assoc, strip_plain_run.
    2:{ apply Forall_app. split; [by vm_compute; repeat constructor|done]. }
    change (lit "</script>") with (60%N :: lit "/script>").
    rewrite strip_keep by (by vm_compute).
    replace (strip_script_elements (lit "/script>") 0) with (lit "/script>")
      by (by vm_compute).
    rewrite <- !app_assoc. reflexivity. }
  rewrite Estrip. apply take_ge.
  rewrite !length_app. change (length (lit "<script>")) with 8%nat.
  change (length (lit "</script>")) with 9%nat. lia.
Qed.

Lemma sanitizeString_nested_markup_survives_witness :
  sanitizeString (VStr (lit "<scr<script></script>ipt>" ++ lit "alert(1)"
                          ++ lit "</script>"))
  = lit "<script>" ++ lit "alert(1)" ++ lit "</script>".
Proof.
  apply (sanitizeString_nested_markup_survives (lit "alert(1)")).
  - vm_compute. repeat constructor; discriminate.
  - vm_compute. repeat constructor.
  - vm_compute. lia.
Defined.

(* ===================================================================== *)
(** ** The validators of single fields                                    *)
(* ===================================================================== *)

Lemma validateLength_Return (s : list N) (lo hi : Z) (f : list N) (b : bool) :
  validateLength s lo hi f = Return b → (lo ≤ Z.of_nat (length s) ≤ hi)%Z.
Proof.
  unfold validateLength. repeat case_bool_decide; try done. intros _. lia.
Qed.

Lemma validateRequired_outcome (v : value) (f : list N) :
  validateRequired v f
  = if nonempty (sanitizeString v) then Return (sanitizeString v)
    else Throw (f ++ lit " is required and cannot be empty").
Proof. unfold validateRequired. by destruct (sanitizeString v). Qed.

(** X3. What [validateRequired] returns is the sanitized value, and it is
    returned only for a string: the result is not empty, is the text with
    some code units left out, has at most 10,000 code units and holds no
    control character. *)
Theorem validateRequired_result (v : value) (f s : list N) :
  validateRequired v f = Return s →
  s = sanitizeString v ∧ s ≠ [] ∧ (∃ raw, v = VStr raw ∧ s `sublist_of` raw)
  ∧ (length s ≤ 10000)%nat ∧ Forall (λ c, is_control_char c = false) s.
Proof.
  rewrite validateRequired_outcome.
  destruct (sanitizeString v) as [|x t] eqn:E; [done|].
  intros [= <-]. rewrite <- E.
  split; [done|]. split; [by rewrite E|].
  split; [|split; [apply sanitizeString_length|apply sanitizeString_no_control]].
  destruct v as [| | | |raw|]; try done.
  exists raw. split; [done|apply sanitizeString_sublist].
Qed.

Lemma validateRequired_result_witness :
  validateRequired (VStr (lit "  Databases ")) (lit "Title") = Return (lit "Databases")
  ∧ (length (lit "Databases") ≤ 10000)%nat.
Proof.
  assert (H : validateRequired (VStr (lit "  Databases ")) (lit "Title")
              = Return (lit "Databases")) by (by vm_compute).
  split; [exact H|].
  exact (proj1 (proj2 (proj2 (proj2 (validateRequired_result _ _ _ H))))).
Defined.

Lemma validateOptional_Some (v : value) (lo hi : Z) (f s : list N) :
  validateOptional v lo hi f = Return (Some s) →
  s = sanitizeString v ∧ s ≠ [] ∧ (lo ≤ Z.of_nat (length s) ≤ hi)%Z.
Proof.
  unfold validateOptional. destruct (truthy v); [|done]. cbn [negb].
  destruct (sanitizeString v) as [|x t] eqn:E; [done|].
  destruct (validateLength (x :: t) lo hi f) as [b|e] eqn:EL; [|done].
  intros [= <-]. split; [done|]. split; [done|].
  by eapply validateLength_Return.
Qed.

(** X4. [validateOptional] returns either nothing or the sanitized text:
    a text it returns is not empty and has a length within the bounds; it
    returns nothing exactly when the value is falsy or sanitizes to the
    empty text; and a value that is not a string always gives nothing,
    never an error. *)
Theorem validateOptional_result (v : value) (lo hi : Z) (f : list N) :
  (∀ s, validateOptional v lo hi f = Return (Some s) →
        s = sanitizeString v ∧ s ≠ [] ∧ (lo ≤ Z.of_nat (length s) ≤ hi)%Z)
  ∧ (validateOptional v lo hi f = Return None
     ↔ truthy v = false ∨ sanitizeString v = [])
  ∧ match v with VStr _ => True | _ => validateOptional v lo hi f = Return None end.
Proof.
  split; [|split].
  - intros s. apply validateOptional_Some.
  - unfold validateOptional. destruct (truthy v); cbn [negb]; [|by split; auto].
    destruct (sanitizeString v) as [|x t] eqn:E; [by split; auto|].
    destruct (validateLength (x :: t) lo hi f); split; try done; by intros [|].
  - unfold validateOptional. destruct v; try done; by destruct (truthy _).
Qed.

Lemma num_lt_Fin_false (x y : Q) : num_lt (Fin x) (Fin y) = false ↔ (y <= x)%Q.
Proof.
  cbn [num_lt]. rewrite negb_false_iff. apply Qle_bool_iff.
Qed.

Lemma validateNumber_Return (v : value) (lo hi : Z) (f : list N) (n : number) :
  validateNumber v lo hi f = Return n →
  n = ToNumber v
  ∧ ∃ q, n = Fin q ∧ (inject_Z lo <= q)%Q ∧ (q <= inject_Z hi)%Q.
Proof.
  unfold validateNumber. destruct (isNaN (ToNumber v)) eqn:En; [done|].
  destruct (num_lt (ToNumber v) (of_Z lo) || num_lt (of_Z hi) (ToNumber v)) eqn:E;
    [done|].
  intros [= <-]. split; [done|].
  apply orb_false_iff in E as [E1 E2].
  destruct (ToNumber v) as [|[]|q]; try done.
  exists q. split; [done|]. split.
  - by apply num_lt_Fin_false in E1.
  - by apply num_lt_Fin_false in E2.
Qed.

(** [Number] of a string rounds the literal to the nearest double, ties to
    even, with overflow to the infinities and underflow to zero. *)
Lemma StringToNumber_rounds :
  StringToNumber (lit "1000000.00000000001") = of_Z 1000000
  ∧ StringToNumber (lit "0.99999999999999999") = of_Z 1
  ∧ StringToNumber (lit "9007199254740993") = of_Z 9007199254740992
  ∧ StringToNumber (lit "9007199254740995") = of_Z 9007199254740996
  ∧ StringToNumber (lit "0.1") = Fin (3602879701896397 # 36028797018963968)
  ∧ StringToNumber (lit "1.7976931348623158e308") = of_Z (2 ^ 1024 - 2 ^ 971)
  ∧ StringToNumber (lit "1.7976931348623159e308") = Inf false
  ∧ StringToNumber (lit "-1e400") = Inf true
  ∧ StringToNumber (lit "2.4703282292062328e-324")
    = Fin (1 # Z.to_pos (2 ^ 1074))
  ∧ StringToNumber (lit "2.4703282292062327e-324") = of_Z 0.
Proof. by vm_compute. Qed.

(** X5. [validateNumber] returns exactly when the value converts to a
    finite number within the bounds, and then returns that number: NaN and
    the infinities are refused whatever the bounds. The conversion is the
    one to a double: a literal that rounds to a bound is accepted as the
    bound. *)
Theorem validateNumber_result (v : value) (lo hi : Z) (f : list N) :
  (∀ n : number,
     validateNumber v lo hi f = Return n
     ↔ n = ToNumber v
       ∧ ∃ q, n = Fin q ∧ (inject_Z lo <= q)%Q ∧ (q <= inject_Z hi)%Q)
  ∧ validateNumber (VStr (lit "1000000.00000000001")) 0 1000000 f
    = Return (of_Z 1000000).
Proof.
  split; [|by vm_compute].
  intros n. split; [apply validateNumber_Return|].
  intros (-> & q & Hq & Hlo & Hhi). unfold validateNumber. rewrite Hq.
  cbn [isNaN]. unfold of_Z.
  assert (num_lt (Fin q) (Fin (inject_Z lo)) = false) as ->
    by (by apply num_lt_Fin_false).
  assert (num_lt (Fin (inject_Z hi)) (Fin q) = false) as ->
    by (by apply num_lt_Fin_false).
  done.
Qed.

(* ===================================================================== *)
(** ** The validators of whole payloads                                   *)
(* ===================================================================== *)

Lemma validateOptional_within (v : value) (lo hi : Z) (f : list N)
    (o : option (list N)) :
  validateOptional v lo hi f = Return o → text_within lo hi o.
Proof.
  intros H. destruct o as [s|]; [|done].
  by destruct (validateOptional_Some v lo hi f s H) as (_ & ? & ?).
Qed.

Lemma optional_number_within (v : value) (lo hi : Z) (f : list N)
    (o : option number) :
  (if truthy v then Some <$> validateNumber v lo hi f else Return None) = Return o →
  number_within lo hi o.
Proof.
  destruct (truthy v); [|by intros [= <-]].
  destruct (validateNumber v lo hi f) as [n|e] eqn:E; [|done].
  intros [= <-]. by destruct (validateNumber_Return _ _ _ _ _ E).
Qed.

(** X6. A module that [validateModuleInput] returns respects every bound
    the function names: the two required texts have 3 to 200 and 10 to 5000
    code units, each optional text is absent or non-empty and within its
    bounds, each numeric field is absent or a finite number within its
    bounds (the double its text converts to). *)
Theorem validateModuleInput_result (data : gmap (list N) value)
    (validated : ValidatedModule) :
  validateModuleInput data = Return validated →
  (3 ≤ Z.of_nat (length (titleEn validated)) ≤ 200)%Z
  ∧ (10 ≤ Z.of_nat (length (descriptionEn validated)) ≤ 5000)%Z
  ∧ text_within 2 20 (shortCode validated)
  ∧ text_within 1 50 (dqsNumber validated)
  ∧ text_within 1 50 (bkz validated)
  ∧ number_within 0 1000000 (pricePerUE validated)
  ∧ number_within 0 1000000 (pricePerModule validated)
  ∧ number_within 1 1000 (ue45 validated)
  ∧ number_within 1 104 (weeks validated)
  ∧ text_within 0 10000 (curriculum validated)
  ∧ text_within 0 50 (nrMab validated)
  ∧ text_within 0 200 (certificate validated).
Proof.
  unfold validateModuleInput. cbn zeta. intros H.
  repeat (apply bind_Return in H as (? & ? & H)).
  injection H as <-. cbn [titleEn descriptionEn shortCode dqsNumber bkz pricePerUE
    pricePerModule ue45 weeks curriculum nrMab certificate] in *.
  repeat match goal with
         | E : validateLength _ _ _ _ = Return _ |- _ =>
             apply validateLength_Return in E
         | E : validateOptional _ _ _ _ = Return _ |- _ =>
             apply validateOptional_within in E
         | E : (if truthy _ then _ else _) = Return _ |- _ =>
             apply optional_number_within in E
         end.
  repeat split; match goal with E : _ |- _ => exact E | E : _ ∧ _ |- _ => apply E end.
Qed.

Lemma validateModuleInput_result_witness :
  ∃ validated : ValidatedModule,
    validateModuleInput precise_payload = Return validated
    ∧ ue45 validated = Some (of_Z 1)
    ∧ (3 ≤ Z.of_nat (length (titleEn validated)) ≤ 200)%Z
    ∧ number_within 1 1000 (ue45 validated).
Proof.
  eexists. split; [by vm_compute|]. split; [reflexivity|].
  split.
  - refine (proj1 (validateModuleInput_result precise_payload _ _)). by vm_compute.
  - refine (proj1 (proj2 (proj2 (proj2 (proj2 (proj2 (proj2 (proj2
      (validateModuleInput_result precise_payload _ _))))))))).
    by vm_compute.
Defined.

(** Reading the rules is a computation on a constant. *)
Ltac read_rules :=
  repeat match goal with
         | |- context [prop ?o ?p] =>
             let r := eval vm_compute in (prop o p) in change (prop o p) with r
         end;
  cbn [mbind outcome_bind];
  repeat match goal with
         | |- context [path ?o ?p] =>
             let r := eval vm_compute in (path o p) in change (path o p) with r
         end;
  cbn [mbind outcome_bind as_bound].

Lemma validateLength'_bounds (s : list N) (lo hi : Z) (f : list N) :
  validateLength' s (Some lo) (Some hi) f = validateLength s lo hi f.
Proof. reflexivity. Qed.

(** X7. A course that [validateCourseInput] returns holds the two sanitized
    texts, the name with 3 to 200 code units and the description with 10 to
    2000. *)
Theorem validateCourseInput_result (data : gmap (list N) value)
    (validated : ValidatedCourse) :
  validateCourseInput data = Return validated →
  course_name validated = sanitizeString (get data (lit "name"))
  ∧ course_description validated = sanitizeString (get data (lit "description"))
  ∧ (3 ≤ Z.of_nat (length (course_name validated)) ≤ 200)%Z
  ∧ (10 ≤ Z.of_nat (length (course_description validated)) ≤ 2000)%Z.
Proof.
  unfold validateCourseInput. read_rules.
  rewrite !validateRequired_outcome.
  destruct (nonempty (sanitizeString (get data (lit "name")))); [|done].
  destruct (nonempty (sanitizeString (get data (lit "description")))); [|done].
  cbn [mbind outcome_bind course_name course_description].
  read_rules. rewrite ?validateLength'_bounds.
  destruct (validateLength _ 3 200 _) as [b|e] eqn:E1; [|done].
  cbn [mbind outcome_bind]. read_rules. rewrite ?validateLength'_bounds.
  destruct (validateLength _ 10 2000 _) as [b'|e] eqn:E2; [|done].
  intros [= <-]. cbn [course_name course_description].
  apply validateLength_Return in E1, E2. done.
Qed.

Lemma validateCourseInput_result_witness :
  ∃ validated : ValidatedCourse,
    validateCourseInput course_payload = Return validated
    ∧ course_name validated = sanitizeString (get course_payload (lit "name")).
Proof.
  eexists. split; [by vm_compute|].
  refine (proj1 (validateCourseInput_result course_payload _ _)). by vm_compute.
Defined.

Section Dates.
Variable new_Date : value → number.

(** X8. A certification round that [validateCertificationRoundInput]
    returns has a name of 3 to 100 code units, a description that is absent
    or non-empty with at most 1000 code units, two valid dates, and a due
    date strictly after the start date. *)
Theorem validateCertificationRoundInput_result (data : gmap (list N) value)
    (validated : ValidatedRound) :
  validateCertificationRoundInput new_Date data = Return validated →
  round_name validated = sanitizeString (get data (lit "name"))
  ∧ (3 ≤ Z.of_nat (length (round_name validated)) ≤ 100)%Z
  ∧ text_within 0 1000 (round_description validated)
  ∧ round_startDate validated = new_Date (get data (lit "startDate"))
  ∧ round_dueDate validated = new_Date (get data (lit "dueDate"))
  ∧ isNaN (round_startDate validated) = false
  ∧ isNaN (round_dueDate validated) = false
  ∧ num_lt (round_startDate validated) (round_dueDate validated) = true.
Proof.
  unfold validateCertificationRoundInput. read_rules.
  rewrite !validateRequired_outcome.
  destruct (nonempty (sanitizeString (get data (lit "name")))); [|done].
  cbn [mbind outcome_bind]. read_rules.
  destruct (validateOptional' _ _ _ _) as [d|e] eqn:Ed; [|done].
  cbn [mbind outcome_bind]. unfold validateDate.
  destruct (truthy (get data (lit "startDate"))); [|done]. cbn [negb].
  destruct (isNaN (new_Date (get data (lit "startDate")))) eqn:Es; [done|].
  cbn [mbind outcome_bind].
  destruct (truthy (get data (lit "dueDate"))); [|done]. cbn [negb].
  destruct (isNaN (new_Date (get data (lit "dueDate")))) eqn:Edd; [done|].
  cbn [mbind outcome_bind round_name round_dueDate round_startDate].
  read_rules. rewrite ?validateLength'_bounds.
  destruct (validateLength _ 3 100 _) as [b|e] eqn:E1; [|done].
  cbn [mbind outcome_bind].
  destruct (less_equal _ _) eqn:Ele; [done|].
  intros [= <-]. cbn [round_name round_description round_startDate round_dueDate].
  apply validateLength_Return in E1.
  repeat split; try done; try lia.
  - unfold validateOptional' in Ed.
    destruct (negb _); [by injection Ed as <-|].
    destruct (sanitizeString (get data (lit "description"))) as [|x t] eqn:Et;
      [by injection Ed as <-|].
    rewrite validateLength'_bounds in Ed.
    destruct (validateLength _ _ _ _) as [b'|e] eqn:E2; [|done].
    injection Ed as <-. apply validateLength_Return in E2. by split.
  - unfold less_equal in Ele. rewrite Es, Edd in Ele. cbn [orb] in Ele.
    by apply negb_false_iff in Ele.
Qed.
End Dates.

Lemma validateCertificationRoundInput_result_witness :
  ∃ validated : ValidatedRound,
    validateCertificationRoundInput date_of_number round_payload = Return validated
    ∧ num_lt (round_startDate validated) (round_dueDate validated) = true.
Proof.
  eexists. split; [by vm_compute|].
  refine (proj2 (proj2 (proj2 (proj2 (proj2 (proj2 (proj2
    (validateCertificationRoundInput_result date_of_number round_payload _ _)))))))).
  by vm_compute.
Defined.

(** X9. [validateCommentInput] never returns: once both texts pass, reading
    the length bounds goes through [rules.comment], which the comment rules
    do not have, and throws a TypeError; before that it throws the error of
    the first text that is missing. *)
Theorem validateCommentInput_never_returns (data : gmap (list N) value) :
  is_return (validateCommentInput data) = false
  ∧ (validateCommentInput data
     = if negb (nonempty (sanitizeString (get data (lit "text")))) then
         Throw (lit "Comment Text is required and cannot be empty")
       else if negb (nonempty (sanitizeString (get data (lit "moduleId")))) then
         Throw (lit "Module ID is required and cannot be empty")
       else Throw (lit "Cannot read properties of undefined (reading 'text')")).
Proof.
  unfold validateCommentInput. read_rules. rewrite !validateRequired_outcome.
  destruct (nonempty (sanitizeString (get data (lit "text")))); [|done].
  destruct (nonempty (sanitizeString (get data (lit "moduleId")))); [|done].
  cbn [mbind outcome_bind]. read_rules. done.
Qed.

(* ===================================================================== *)
(** ** E-mail addresses                                                   *)
(* ===================================================================== *)

Lemma not_space_at_member (y : N) :
  xorb true (class_member false (space_ranges ++ [(64, 64)%N]) y) = true →
  is_whitespace y = false ∧ y ≠ 64%N.
Proof.
  unfold class_member. cbn [andb orb]. rewrite orb_false_r.
  unfold in_ranges. rewrite existsb_app, negb_true_iff, orb_false_iff.
  intros [Hs Ha]. split; [exact Hs|].
  cbn [existsb fst snd] in Ha. intros ->. done.
Qed.

Lemma rmatch_class_Some (k : cursor → option cursor) (c e : cursor) :
  rmatch false not_space_at k c = Some e →
  ∃ y rest, after c = y :: rest ∧ (is_whitespace y = false ∧ y ≠ 64%N)
            ∧ k (Cursor (y :: before c) rest) = Some e.
Proof.
  unfold not_space_at. cbn [rmatch]. destruct (after c) as [|y rest]; [done|].
  destruct (xorb true _) eqn:E; [|done]. intros H.
  exists y, rest. split; [done|]. split; [by apply not_space_at_member|done].
Qed.

Lemma star_class_Some (k : cursor → option cursor) (n : nat) : ∀ (c e : cursor),
  star_loop (rmatch false not_space_at) k n c = Some e →
  ∃ pre rest b, after c = pre ++ rest
                ∧ Forall (λ y, is_whitespace y = false ∧ y ≠ 64%N) pre
                ∧ k (Cursor b rest) = Some e.
Proof.
  induction n as [|n IH]; intros c e H.
  - exists [], (after c), (before c). split; [done|]. split; [done|]. by destruct c.
  - rewrite star_loop_S in H.
    destruct (rmatch false not_space_at _ c) as [e'|] eqn:E.
    + injection H as ->. apply rmatch_class_Some in E as (y & rest & Hc & Hy & E).
      destruct (_ <? _)%nat; [|done].
      apply IH in E as (pre & rest' & b & Hr & Hpre & Hk). cbn [after] in Hr.
      exists (y :: pre), rest', b. split; [by rewrite Hc, Hr|]. split; [by constructor|done].
    + exists [], (after c), (before c). split; [done|]. split; [done|]. by destruct c.
Qed.

Lemma plus_class_Some (k : cursor → option cursor) (c e : cursor) :
  rmatch false (Plus not_space_at) k c = Some e →
  ∃ pre rest b, after c = pre ++ rest ∧ pre ≠ []
                ∧ Forall (λ y, is_whitespace y = false ∧ y ≠ 64%N) pre
                ∧ k (Cursor b rest) = Some e.
Proof.
  unfold Plus. cbn [rmatch]. intros H.
  apply rmatch_class_Some in H as (y & rest & Hc & Hy & H).
  cbn [rmatch after] in H.
  apply star_class_Some in H as (pre & rest' & b & Hr & Hpre & Hk). cbn [after] in Hr.
  exists (y :: pre), rest', b. split; [by rewrite Hc, Hr|]. split; [done|].
  split; [by constructor|done].
Qed.

Lemma rmatch_Chr_Some (x : N) (k : cursor → option cursor) (c e : cursor) :
  rmatch false (Chr x) k c = Some e →
  ∃ rest, after c = x :: rest ∧ k (Cursor (x :: before c) rest) = Some e.
Proof.
  cbn [rmatch]. destruct (after c) as [|y rest]; [done|].
  unfold canonicalize. cbn [andb]. destruct (N.eqb_spec y x) as [->|]; [|done].
  intros H. by exists rest.
Qed.

Lemma rmatch_Seq (ic : bool) (r1 r2 : regex) (k : cursor → option cursor) (c : cursor) :
  rmatch ic (Seq r1 r2) k c = rmatch ic r1 (rmatch ic r2 k) c.
Proof. reflexivity. Qed.

(** What the pattern accepts has the shape local@name.tld. *)
Lemma emailRegex_shape (s : list N) :
  test_anchored emailRegex s = true →
  ∃ l d t, s = l ++ [64%N] ++ d ++ [46%N] ++ t
           ∧ l ≠ [] ∧ d ≠ [] ∧ t ≠ []
           ∧ Forall (λ y, is_whitespace y = false ∧ y ≠ 64%N) l
           ∧ Forall (λ y, is_whitespace y = false ∧ y ≠ 64%N) d
           ∧ Forall (λ y, is_whitespace y = false ∧ y ≠ 64%N) t.
Proof.
  unfold test_anchored, emailRegex.
  destruct (rmatch _ _ _ _) as [e|] eqn:E; [|done]. intros _.
  rewrite rmatch_Seq in E.
  apply plus_class_Some in E as (l & r1 & b1 & Hs & Hl & Pl & E). cbn [after] in Hs.
  rewrite rmatch_Seq in E.
  apply rmatch_Chr_Some in E as (r2 & Hr1 & E). cbn [after before] in *.
  rewrite rmatch_Seq in E.
  apply plus_class_Some in E as (d & r3 & b3 & Hr2 & Hd & Pd & E). cbn [after] in Hr2.
  rewrite rmatch_Seq in E.
  apply rmatch_Chr_Some in E as (r4 & Hr3 & E). cbn [after before] in *.
  apply plus_class_Some in E as (t & r5 & b5 & Hr4 & Ht & Pt & E). cbn [after] in *.
  destruct r5; [|done].
  exists l, d, t. subst. rewrite app_nil_r. by repeat split.
Qed.

Lemma split_at_prefix (l rest : list N) :
  Forall (λ c, c ≠ 64%N) l → split 64 (l ++ 64%N :: rest) = l :: split 64 rest.
Proof.
  induction 1 as [|x l Hx Hl IH]; cbn [app split].
  - by rewrite N.eqb_refl.
  - destruct (N.eqb_spec x 64); [done|]. by rewrite IH.
Qed.

Lemma split_no_at (l : list N) :
  Forall (λ c, c ≠ 64%N) l → split 64 l = [l].
Proof.
  induction 1 as [|x l Hx Hl IH]; [done|]. cbn [split].
  destruct (N.eqb_spec x 64); [done|]. by rewrite IH.
Qed.

Section LowerCase.
Variable toLowerCase : list N → list N.

(** X11. An address that [validateEmail] returns is the trimmed, lower-cased
    input; it has exactly the shape local@domain with a non-empty local part
    free of whitespace and at signs, and its domain is one of the allowed
    domains. *)
Theorem validateEmail_result (email : value) (e : list N) :
  validateEmail toLowerCase email = Return e →
  ∃ raw l domain,
    email = VStr raw ∧ e = toLowerCase (trim raw)
    ∧ e = l ++ [64%N] ++ domain
    ∧ domain ∈ ALLOWED_DOMAINS
    ∧ l ≠ [] ∧ Forall (λ c, is_whitespace c = false ∧ c ≠ 64%N) l.
Proof.
  unfold validateEmail. destruct email as [| | | |raw|]; try done.
  destruct (negb (truthy (VStr raw))); [done|]. cbn zeta.
  destruct (test_anchored emailRegex (toLowerCase (trim raw))) eqn:Et; [|done].
  cbn [negb].
  apply emailRegex_shape in Et as (l & d & t & Hs & Hl & Hd & Ht & Pl & Pd & Pt).
  rewrite Hs. cbn [app]. rewrite split_at_prefix.
  2:{ by eapply Forall_impl; [exact Pl|intros ? []]. }
  rewrite split_no_at.
  2:{ apply Forall_app. split; [by eapply Forall_impl; [exact Pd|intros ? []]|].
      constructor; [done|]. by eapply Forall_impl; [exact Pt|intros ? []]. }
  cbn [lookup list_lookup]. case_bool_decide as Hdom; [|done]. cbn [negb].
  intros [= <-]. apply list_elem_of_fmap in Hdom as (dom & [= <-] & Hdom).
  exists raw, l, (d ++ 46%N :: t). by repeat split.
Qed.

(** X10. [validateUserInput] never returns: when the address, the display
    name and the role all pass, reading the length bounds goes through
    [rules.user], which the user rules do not have, and throws a
    TypeError. *)
Theorem validateUserInput_never_returns (data : gmap (list N) value) :
  is_return (validateUserInput toLowerCase data) = false
  ∧ ∀ (e d : list N) (r : value),
      validateEmail toLowerCase (get data (lit "email")) = Return e →
      validateRequired (get data (lit "displayName")) (lit "Display Name") = Return d →
      validateEnum (get data (lit "role"))
        [lit "sysadmin"; lit "programOwner"; lit "operations"] (lit "Role") = Return r →
      validateUserInput toLowerCase data
      = Throw (lit "Cannot read properties of undefined (reading 'displayName')").
Proof.
  unfold validateUserInput. read_rules. split.
  - destruct (validateEmail _ _); [|done]. cbn [mbind outcome_bind].
    destruct (validateRequired _ _); [|done]. cbn [mbind outcome_bind].
    destruct (validateEnum _ _ _); [|done]. cbn [mbind outcome_bind].
    read_rules. done.
  - intros e d r -> -> ->. cbn [mbind outcome_bind]. read_rules. done.
Qed.
End LowerCase.

Lemma validateEmail_result_witness :
  validateEmail ascii_lower (VStr (lit " Root@WBS.de ")) = Return (lit "root@wbs.de")
  ∧ ∃ raw l domain,
      VStr (lit " Root@WBS.de ") = VStr raw
      ∧ lit "root@wbs.de" = ascii_lower (trim raw)
      ∧ lit "root@wbs.de" = l ++ [64%N] ++ domain
      ∧ domain ∈ ALLOWED_DOMAINS
      ∧ l ≠ [] ∧ Forall (λ c, is_whitespace c = false ∧ c ≠ 64%N) l.
Proof.
  assert (H : validateEmail ascii_lower (VStr (lit " Root@WBS.de "))
              = Return (lit "root@wbs.de")) by (by vm_compute).
  split; [exact H|]. exact (validateEmail_result ascii_lower _ _ H).
Defined.

(* ===================================================================== *)
(** ** The two abuse guards: keys, records and windows                    *)
(* ===================================================================== *)

(** X12. A call of [checkRateLimit] touches the record of its own key only:
    every other key keeps its record, and no key is ever removed. *)
Theorem checkRateLimit_other_keys (userId action : list N) (maxRequests windowMs now : Z)
    (st : gmap (list N) (list Z)) :
  (∀ k, k ≠ userId ++ lit ":" ++ action →
        (checkRateLimit userId action maxRequests windowMs now st).2 !! k = st !! k)
  ∧ dom st ⊆ dom (checkRateLimit userId action maxRequests windowMs now st).2.
Proof.
  unfold checkRateLimit.
  destruct (st !! (userId ++ lit ":" ++ action)) as [stored|] eqn:E; cbn [snd].
  - case_bool_decide; cbn [snd].
    + by split.
    + split; [intros k Hk; by rewrite lookup_insert_ne|].
      rewrite dom_insert. set_solver.
  - split; [intros k Hk; by rewrite lookup_insert_ne|].
    rewrite dom_insert. set_solver.
Qed.

(** X14. The keys of both guards are built by joining with a colon, so the
    colon is not a separator: user [u:x] with action [a] and user [u] with
    action [x:a] share one rate-limit record, and user [u:x] with content
    [c] and user [u] with content [x:c] share one duplicate record (when
    [x:c] fits the 100 code units of the key). *)
Theorem guard_keys_collide (u x a content : list N) (m w now : Z)
    (limits : gmap (list N) (list Z)) (recent : gmap (list N) Z) :
  (checkRateLimit (u ++ lit ":" ++ x) a m w now limits).2
  = (checkRateLimit u (x ++ lit ":" ++ a) m w now limits).2
  ∧ is_return (checkRateLimit (u ++ lit ":" ++ x) a m w now limits).1
    = is_return (checkRateLimit u (x ++ lit ":" ++ a) m w now limits).1
  ∧ ((length x + 1 + length content ≤ 100)%nat →
     checkDuplicateContent (u ++ lit ":" ++ x) content a w now recent
     = checkDuplicateContent u (x ++ lit ":" ++ content) a w now recent).
Proof.
  assert (Ek : (u ++ lit ":" ++ x) ++ lit ":" ++ a = u ++ lit ":" ++ x ++ lit ":" ++ a)
    by (by rewrite <- !app_assoc).
  split; [|split].
  - unfold checkRateLimit. rewrite Ek.
    destruct (limits !! _); [|done]. by case_bool_decide.
  - unfold checkRateLimit. rewrite Ek.
    destruct (limits !! _); [|done]. by case_bool_decide.
  - intros Hlen. unfold checkDuplicateContent.
    rewrite !take_ge by (rewrite ?length_app; change (length (lit ":")) with 1%nat; lia).
    by rewrite <- !app_assoc.
Qed.

(** X13. After a call of [checkRateLimit] that returns, the record of the
    key ends with the time of the call, holds besides that time only times
    inside the window, and has at most [maxRequests] entries (one entry when
    [maxRequests] is below one). *)
Theorem checkRateLimit_accepted_record (userId action : list N)
    (maxRequests windowMs now : Z) (st : gmap (list N) (list Z)) :
  (checkRateLimit userId action maxRequests windowMs now st).1 = Return true →
  ∃ l, (checkRateLimit userId action maxRequests windowMs now st).2
         !! (userId ++ lit ":" ++ action) = Some l
       ∧ last l = Some now
       ∧ (∀ t, t ∈ l → t = now ∨ now - t < windowMs)%Z
       ∧ (Z.of_nat (length l) ≤ Z.max maxRequests 1)%Z.
Proof.
  unfold checkRateLimit.
  destruct (st !! (userId ++ lit ":" ++ action)) as [stored|] eqn:E; cbn [fst snd].
  - case_bool_decide; [done|]. intros _. cbn [snd].
    eexists. split; [apply lookup_insert_eq|]. split; [apply last_snoc|]. split.
    + intros t [Ht| ->%list_elem_of_singleton]%elem_of_app; [|by left].
      right. by apply list_elem_of_filter in Ht as [Ht _].
    + rewrite length_app. cbn [length]. lia.
  - intros _. eexists. split; [apply lookup_insert_eq|]. split; [done|]. split.
    + intros t ->%list_elem_of_singleton. by left.
    + cbn [length]. lia.
Qed.

Lemma checkRateLimit_accepted_record_witness :
  ∃ l, (checkRateLimit (lit "u") (lit "a") 2 60000 1000 ∅).2
         !! (lit "u" ++ lit ":" ++ lit "a") = Some l
       ∧ last l = Some 1000%Z
       ∧ (∀ t, t ∈ l → t = 1000 ∨ 1000 - t < 60000)%Z
       ∧ (Z.of_nat (length l) ≤ Z.max 2 1)%Z.
Proof.
  apply (checkRateLimit_accepted_record (lit "u") (lit "a") 2 60000 1000 ∅).
  by vm_compute.
Defined.

(** X15. A window of zero or less switches both guards off: with a limit of
    at least one and no recorded time in the future, [checkRateLimit] and
    [checkDuplicateContent] accept every call. *)
Theorem nonpositive_window_disables_guards (userId action content : list N)
    (maxRequests windowMs now : Z)
    (limits : gmap (list N) (list Z)) (recent : gmap (list N) Z) :
  (windowMs ≤ 0)%Z →
  (1 ≤ maxRequests)%Z →
  (∀ l t, limits !! (userId ++ lit ":" ++ action) = Some l → t ∈ l → t ≤ now)%Z →
  (∀ t, recent !! (userId ++ lit ":" ++ take 100 content) = Some t → t ≤ now)%Z →
  (checkRateLimit userId action maxRequests windowMs now limits).1 = Return true
  ∧ (checkDuplicateContent userId content action windowMs now recent).1 = Return true.
Proof.
  intros Hw Hm Hlim Hrec. split.
  - rewrite checkRateLimit_refines by done. unfold checkRateLimit_spec.
    rewrite filter_drops_all.
    + by rewrite bool_decide_eq_false_2 by (cbn [length]; lia).
    + intros t Ht. destruct (limits !! _) as [l|] eqn:E; [|by apply elem_of_nil in Ht].
      specialize (Hlim l t eq_refl Ht). lia.
  - rewrite checkDuplicateContent_outcome.
    destruct (recent !! _) as [t|] eqn:E; [|done].
    specialize (Hrec t eq_refl). by rewrite bool_decide_eq_false_2 by lia.
Qed.

Lemma nonpositive_window_disables_guards_witness :
  (checkRateLimit (lit "u") (lit "a") 1 0 5
     {[ lit "u" ++ lit ":" ++ lit "a" := [5%Z] ]}).1 = Return true
  ∧ (checkDuplicateContent (lit "u") (lit "hello") (lit "a") 0 5
       {[ lit "u" ++ lit ":" ++ take 100 (lit "hello") := 5%Z ]}).1 = Return true.
Proof.
  apply (nonpositive_window_disables_guards (lit "u") (lit "a") (lit "hello") 1 0 5).
  - lia.
  - lia.
  - intros l t. rewrite lookup_singleton_eq.
    intros [= <-] ->%list_elem_of_singleton. lia.
  - intros t. rewrite lookup_singleton_eq. intros [= <-]. lia.
Defined.

(* ===================================================================== *)
(** ** Authentication and the order of the checks                         *)
(* ===================================================================== *)

Lemma known_role_Some (v : value) (r : list N) :
  known_role v = Some r → v = VStr r ∧ r ∈ ROLES.values.
Proof.
  destruct v; try done. cbn [known_role]. case_bool_decide; [|done].
  by intros [= <-].
Qed.

Lemma authenticateUser_outcome (request : Request) (w : world) :
  authenticateUser request w
  = match auth request with
    | None => (Throw (lit "Unauthorized: No authentication provided"), w)
    | Some a =>
        (match find_doc (uid a) (documents w (lit "users")) with
         | None => Throw (lit "Unauthorized: User not found in system")
         | Some userData =>
             if truthy (get userData (lit "active")) then
               let role := or_else (get (token a) (lit "role"))
                                   (get userData (lit "role")) in
               match known_role role with
               | Some r =>
                   Return {| userId := uid a; email := get (token a) (lit "email");
                             role := r;
                             displayName := get userData (lit "displayName");
                             active := get userData (lit "active") |}
               | None => Throw (lit "Unauthorized: Invalid user role")
               end
             else Throw (lit "Unauthorized: User account is deactivated")
         end, record (OpGet (lit "users") (uid a)) w)
    end.
Proof.
  unfold authenticateUser. destruct (auth request) as [a|]; [|done].
  unfold mbind, M_bind, doc_get.
  destruct (find_doc _ _) as [userData|]; [|done].
  destruct (truthy (get userData (lit "active"))); cbn [negb]; [|done].
  cbn zeta.
  destruct (truthy (or_else _ _)) eqn:Et.
  - by destruct (known_role _).
  - assert (known_role (or_else (get (token a) (lit "role"))
                                (get userData (lit "role"))) = None) as ->; [|done].
    destruct (or_else _ _) as [| | | |s|]; try done.
    destruct s; [|done]. by vm_compute.
Qed.

(** X16. A context that [authenticateUser] returns belongs to the caller's
    stored profile: the request carries credentials, the profile exists and
    is active, the user id is the caller's, the role is one of the three
    roles and is the token's role when that is truthy and the profile's
    otherwise, and the only store operation is the fetch of the profile. *)
Theorem authenticateUser_result (request : Request) (w w' : world) (ctx : UserContext) :
  authenticateUser request w = (Return ctx, w') →
  ∃ a profile,
    auth request = Some a
    ∧ find_doc (uid a) (documents w (lit "users")) = Some profile
    ∧ userId ctx = uid a
    ∧ role ctx ∈ ROLES.values
    ∧ truthy (active ctx) = true
    ∧ active ctx = get profile (lit "active")
    ∧ VStr (role ctx) = or_else (get (token a) (lit "role")) (get profile (lit "role"))
    ∧ w' = record (OpGet (lit "users") (uid a)) w.
Proof.
  rewrite authenticateUser_outcome.
  destruct (auth request) as [a|]; [|done].
  destruct (find_doc _ _) as [profile|] eqn:Ef; [|done].
  destruct (truthy (get profile (lit "active"))) eqn:Ea; [|done]. cbn zeta.
  destruct (known_role _) as [r|] eqn:Er; [|done].
  intros [= <- <-]. apply known_role_Some in Er as [Er Hr].
  exists a, profile. by repeat split.
Qed.

Lemma authenticateUser_result_witness :
  authenticateUser sysadmin_request (world_of [])
  = (Return sysadmin_ctx, record (OpGet (lit "users") (lit "admin1")) (world_of []))
  ∧ role sysadmin_ctx ∈ ROLES.values.
Proof.
  assert (H : authenticateUser sysadmin_request (world_of [])
              = (Return sysadmin_ctx,
                 record (OpGet (lit "users") (lit "admin1")) (world_of [])))
    by (by vm_compute).
  split; [exact H|].
  destruct (authenticateUser_result _ _ _ _ H) as (a & p & _ & _ & _ & Hr & _).
  exact Hr.
Defined.

(** X17. A non-empty role in the token decides alone: the role stored in
    the profile is not looked at, so the call returns with the token's role
    when that is one of the three roles and throws otherwise, whatever the
    profile says. *)
Theorem token_role_wins (request : Request) (a : Auth.Auth) (w : world)
    (profile : gmap (list N) value) (r : list N) :
  auth request = Some a →
  find_doc (uid a) (documents w (lit "users")) = Some profile →
  truthy (get profile (lit "active")) = true →
  get (token a) (lit "role") = VStr r →
  r ≠ [] →
  (authenticateUser request w).1
  = if bool_decide (r ∈ ROLES.values)
    then Return {| userId := uid a; email := get (token a) (lit "email"); role := r;
                   displayName := get profile (lit "displayName");
                   active := get profile (lit "active") |}
    else Throw (lit "Unauthorized: Invalid user role").
Proof.
  intros Ha Hf Hact Hrole Hr. rewrite authenticateUser_outcome, Ha, Hf, Hact, Hrole.
  cbn [fst]. cbn zeta.
  assert (or_else (VStr r) (get profile (lit "role")) = VStr r) as ->.
  { unfold or_else. cbn [truthy]. by destruct r. }
  cbn [known_role]. by case_bool_decide.
Qed.

Lemma token_role_wins_witness :
  (authenticateUser operations_request (world_of [])).1
  = Return {| userId := lit "admin1"; email := VUndefined; role := lit "operations";
              displayName := VStr (lit "Root"); active := VBool true |}.
Proof.
  refine (eq_trans
    (token_role_wins operations_request _ (world_of []) sysadmin_profile
       (lit "operations") eq_refl _ _ _ _) _).
  - by vm_compute.
  - by vm_compute.
  - by vm_compute.
  - by vm_compute.
  - by vm_compute.
Defined.

Lemma role_value_plain (r : list N) :
  r ∈ ROLES.values → assoc r Object_prototype = None.
Proof.
  intros Hr. unfold ROLES.values in Hr.
  repeat (apply elem_of_cons in Hr as [->|Hr]); try (by vm_compute).
  by apply elem_of_nil in Hr.
Qed.

(** X18. For a context that [authenticateUser] has returned,
    [requireMinRole] is the comparison of levels (sysadmin 3, programOwner
    2, operations 1, anything else 0): it returns when the caller's level is
    at least the required one and throws the forbidden error otherwise. *)
Theorem requireMinRole_authenticated (request : Request) (w w' : world)
    (ctx : UserContext) (minRole : list N) :
  authenticateUser request w = (Return ctx, w') →
  requireMinRole ctx minRole
  = if bool_decide (hierarchyLevel (role ctx) >= hierarchyLevel minRole)%Z
    then Return true
    else Throw (ForbiddenError (lit "Requires minimum role: " ++ minRole)).
Proof.
  rewrite authenticateUser_outcome.
  destruct (auth request) as [a|]; [|done].
  destruct (find_doc _ _) as [profile|]; [|done].
  destruct (truthy (get profile (lit "active"))); [|done]. cbn zeta.
  destruct (known_role _) as [r|] eqn:Er; [|done].
  intros [= <- _]. apply known_role_Some in Er as [_ Hr].
  apply requireMinRole_plain_role. by apply role_value_plain.
Qed.

Lemma requireMinRole_authenticated_witness :
  requireMinRole sysadmin_ctx (lit "programOwner") = Return true.
Proof.
  refine (eq_trans
    (requireMinRole_authenticated sysadmin_request (world_of [])
       (record (OpGet (lit "users") (lit "admin1")) (world_of []))
       sysadmin_ctx (lit "programOwner") _) _).
  - by vm_compute.
  - by vm_compute.
Defined.

(* ===================================================================== *)
(** ** [authorizeRequest]: what it reads and where it stops               *)
(* ===================================================================== *)

Section Reads.
Context {A B : Type}.

Lemma reads_only_nil (w : world) : reads_only w w [].
Proof. unfold reads_only. rewrite app_nil_r. by destruct w. Qed.

Lemma reads_only_trans (w w1 w2 : world) (t1 t2 : list store_op) :
  reads_only w w1 t1 → reads_only w1 w2 t2 → reads_only w w2 (t1 ++ t2).
Proof. intros -> ->. unfold reads_only. cbn. by rewrite app_assoc. Qed.

Lemma reads_exactly_within (tr : list store_op) (m : M A) :
  reads_exactly tr m → reads_within tr m.
Proof. intros H w. destruct (H w) as (tr' & ? & ? & _). by exists tr'. Qed.

Lemma reads_pure (o : outcome A) : reads_exactly [] (lift o).
Proof. intros w. exists []. split; [apply reads_only_nil|done]. Qed.

Lemma reads_bind (t1 t2 : list store_op) (m : M A) (k : A → M B) :
  reads_exactly t1 m → (∀ a, reads_exactly t2 (k a)) →
  reads_exactly (t1 ++ t2) (m ≫= k).
Proof.
  intros Hm Hk w. destruct (Hm w) as (tr1 & Hw1 & Hp1 & He1).
  unfold mbind, M_bind. destruct (m w) as [[a|e] w1]; cbn [fst snd] in *.
  - rewrite He1 in * by done.
    destruct (Hk a w1) as (tr2 & Hw2 & Hp2 & He2). exists (t1 ++ tr2).
    split; [by eapply reads_only_trans|]. split; [by apply prefix_app|].
    intros Hr. by rewrite He2.
  - exists tr1. split; [done|]. split; [by apply prefix_app_r|done].
Qed.

Lemma reads_bind_within (t1 t2 : list store_op) (m : M A) (k : A → M B) :
  reads_exactly t1 m → (∀ a, reads_within t2 (k a)) →
  reads_within (t1 ++ t2) (m ≫= k).
Proof.
  intros Hm Hk w. destruct (Hm w) as (tr1 & Hw1 & Hp1 & He1).
  unfold mbind, M_bind. destruct (m w) as [[a|e] w1]; cbn [fst snd] in *.
  - rewrite He1 in * by done.
    destruct (Hk a w1) as (tr2 & Hw2 & Hp2). exists (t1 ++ tr2).
    split; [by eapply reads_only_trans|by apply prefix_app].
  - exists tr1. split; [done|by apply prefix_app_r].
Qed.

Lemma reads_within_then (tr : list store_op) (m : M A) (k : A → M B) :
  reads_within tr m → (∀ a, reads_exactly [] (k a)) → reads_within tr (m ≫= k).
Proof.
  intros Hm Hk w. destruct (Hm w) as (tr1 & Hw1 & Hp1).
  unfold mbind, M_bind. destruct (m w) as [[a|e] w1]; cbn [fst snd] in *.
  - destruct (Hk a w1) as (tr2 & Hw2 & ->%prefix_nil_inv & _). exists tr1.
    split; [|done]. rewrite <- (app_nil_r tr1). by eapply reads_only_trans.
  - by exists tr1.
Qed.

Lemma reads_fmap (tr : list store_op) (f : A → B) (m : M A) :
  reads_exactly tr m → reads_exactly tr (f <$> m).
Proof.
  intros Hm w. destruct (Hm w) as (tr' & Hw & Hp & He). exists tr'.
  unfold fmap, M_fmap. by destruct (m w) as [[a|e] w1].
Qed.
End Reads.

Lemma reads_record (o : store_op) (w : world) : reads_only w (record o w) [o].
Proof. reflexivity. Qed.

Lemma reads_authenticateUser (request : Request) :
  reads_exactly (match auth request with
                 | Some a => [OpGet (lit "users") (uid a)]
                 | None => []
                 end) (authenticateUser request).
Proof.
  intros w. rewrite authenticateUser_outcome.
  destruct (auth request) as [a|].
  - eexists. split; [apply reads_record|]. by split.
  - exists []. split; [apply reads_only_nil|]. by split.
Qed.

Lemma reads_requireActiveCertificationRound :
  reads_exactly [round_query] requireActiveCertificationRound.
Proof.
  intros w. rewrite requireActiveCertificationRound_outcome.
  eexists. split; [apply reads_record|]. by split.
Qed.

Lemma reads_requireOwnership (ctx : UserContext) (rt rid : list N)
    (owner : option (list N)) :
  reads_within [OpGet rt rid] (requireOwnership ctx rt rid owner).
Proof.
  intros w. rewrite requireOwnership_outcome. case_bool_decide.
  - exists []. split; [apply reads_only_nil|apply prefix_nil].
  - eexists. split; [apply reads_record|done].
Qed.

(** X19. [authorizeRequest] never writes: whatever the request and the
    options, and whether it returns or throws, the world it leaves differs
    from the one it found only by recorded reads, and these are an initial
    part of: the caller's profile, the active-round query when a round is
    required, the resource when ownership is required. Without credentials
    it reads nothing. *)
Theorem authorizeRequest_reads_only (request : Request) (options : Options) :
  reads_within (expected_ops request options) (authorizeRequest request options).
Proof.
  unfold authorizeRequest, expected_ops.
  destruct (auth request) as [a|] eqn:Ea.
  - change (OpGet (lit "users") (uid a) :: ?l) with ([OpGet (lit "users") (uid a)] ++ l).
    apply reads_bind_within.
    { pose proof (reads_authenticateUser request) as H. by rewrite Ea in H. }
    intros ctx.
    apply (reads_bind_within [] _).
    { destruct (opt_requireRoles options) as [r|]; [destruct (roles_given r)|];
        apply reads_pure. }
    intros _. apply (reads_bind_within [] _).
    { destruct (opt_requireMinRole options) as [r|]; [destruct (nonempty r)|];
        apply reads_pure. }
    intros _. apply reads_bind_within.
    { destruct (opt_requireActiveRound options).
      - apply reads_fmap, reads_requireActiveCertificationRound.
      - apply (reads_pure (Return None)). }
    intros activeRound. apply reads_within_then.
    + destruct (opt_requireOwnership options) as [o|].
      * apply reads_requireOwnership.
      * apply reads_exactly_within, (reads_pure (Return true)).
    + intros _. apply (reads_pure (Return _)).
  - intros w. unfold mbind at 1. unfold M_bind at 1.
    rewrite authenticateUser_outcome, Ea.
    exists []. split; [apply reads_only_nil|done].
Qed.

(** [authorizeRequest] when a role check throws: the error is that check's
    and the world is the one authentication left. *)
Lemma authorizeRequest_roles_throw (request : Request) (options : Options)
    (ctx : UserContext) (w w1 : world) (r : roles_arg) (e : list N) :
  authenticateUser request w = (Return ctx, w1) →
  opt_requireRoles options = Some r → roles_given r = true →
  requireRole ctx r = Throw e →
  authorizeRequest request options w = (Throw e, w1).
Proof.
  intros Hauth Hopt Hgiven Hr. unfold authorizeRequest.
  unfold mbind at 1. unfold M_bind at 1. rewrite Hauth.
  unfold mbind at 1. unfold M_bind at 1. rewrite Hopt, Hgiven.
  unfold lift. by rewrite Hr.
Qed.

Lemma authorizeRequest_minRole_throw (request : Request) (options : Options)
    (ctx : UserContext) (w w1 : world) (m e : list N) :
  authenticateUser request w = (Return ctx, w1) →
  (∀ r, opt_requireRoles options = Some r → roles_given r = true →
        requireRole ctx r = Return true) →
  opt_requireMinRole options = Some m → m ≠ [] →
  requireMinRole ctx m = Throw e →
  authorizeRequest request options w = (Throw e, w1).
Proof.
  intros Hauth Hroles Hopt Hne Hmin. unfold authorizeRequest.
  unfold mbind at 1. unfold M_bind at 1. rewrite Hauth.
  unfold mbind at 1. unfold M_bind at 1.
  assert (match opt_requireRoles options with
          | Some requireRoles =>
              if roles_given requireRoles
              then lift (requireRole ctx requireRoles) else mret true
          | None => mret true
          end w1 = (Return true, w1)) as ->.
  { destruct (opt_requireRoles options) as [r|]; [|done].
    destruct (roles_given r) eqn:E; [|done]. unfold lift. by rewrite Hroles. }
  unfold mbind at 1. unfold M_bind at 1. rewrite Hopt.
  destruct m; [done|]. cbn [nonempty]. unfold lift. by rewrite Hmin.
Qed.

(** X20. The role checks come before any further read: once the caller is
    authenticated (one fetch, of the profile), a failing list of roles makes
    [authorizeRequest] throw that check's error, and so does a failing
    minimum role when the list of roles passes, in both cases without
    querying the rounds or fetching the resource. *)
Theorem authorizeRequest_first_failure (request : Request) (options : Options)
    (ctx : UserContext) (w w1 : world) :
  authenticateUser request w = (Return ctx, w1) →
  ops w1 = ops w ++ [OpGet (lit "users") (userId ctx)]
  ∧ (∀ r e, opt_requireRoles options = Some r → roles_given r = true →
            requireRole ctx r = Throw e →
            authorizeRequest request options w = (Throw e, w1))
  ∧ (∀ m e,
       (∀ r, opt_requireRoles options = Some r → roles_given r = true →
             requireRole ctx r = Return true) →
       opt_requireMinRole options = Some m → m ≠ [] →
       requireMinRole ctx m = Throw e →
       authorizeRequest request options w = (Throw e, w1)).
Proof.
  intros Hauth. split; [|split].
  - rewrite authenticateUser_outcome in Hauth.
    destruct (auth request) as [a|]; [|done].
    destruct (find_doc _ _) as [profile|]; [|done].
    destruct (truthy (get profile (lit "active"))); [|done]. cbn zeta in Hauth.
    destruct (known_role _) as [r|]; [|done].
    by injection Hauth as <- <-.
  - intros r e. by apply authorizeRequest_roles_throw.
  - intros m e. by apply authorizeRequest_minRole_throw.
Qed.

Lemma authorizeRequest_first_failure_witness :
  ops (record (OpGet (lit "users") (lit "admin1")) (world_of []))
  = ops (world_of []) ++ [OpGet (lit "users") (userId sysadmin_ctx)].
Proof.
  refine (proj1 (authorizeRequest_first_failure sysadmin_request gated sysadmin_ctx
                   (world_of [])
                   (record (OpGet (lit "users") (lit "admin1")) (world_of [])) _)).
  by vm_compute.
Defined.

(** X21. An empty list of required roles lets nobody through: the empty
    array is truthy, so the check runs and no role is in it; every
    authenticated caller, a sysadmin included, gets the forbidden error with
    an empty list of roles in its message. *)
Theorem authorizeRequest_empty_roles (request : Request) (options : Options)
    (ctx : UserContext) (w w1 : world) :
  authenticateUser request w = (Return ctx, w1) →
  opt_requireRoles options = Some (RoleList []) →
  authorizeRequest request options w
  = (Throw (ForbiddenError (lit "Requires one of these roles: ")), w1).
Proof.
  intros Hauth Hopt.
  by apply (authorizeRequest_roles_throw request options ctx w w1 (RoleList [])).
Qed.

Lemma authorizeRequest_empty_roles_witness :
  authorizeRequest sysadmin_request no_roles (world_of [])
  = (Throw (ForbiddenError (lit "Requires one of these roles: ")),
     record (OpGet (lit "users") (lit "admin1")) (world_of [])).
Proof.
  apply (authorizeRequest_empty_roles sysadmin_request no_roles sysadmin_ctx).
  - by vm_compute.
  - reflexivity.
Defined.

(* ===================================================================== *)
(** ** The domain check of the middleware                                 *)
(* ===================================================================== *)

(** The first piece is the text before the first at sign. *)
Lemma split_first (s : list N) :
  ∃ piece, Forall (λ c, c ≠ 64%N) piece
    ∧ ((s = piece ∧ split 64 s = [piece])
       ∨ ∃ rest, s = piece ++ 64%N :: rest ∧ split 64 s = piece :: split 64 rest).
Proof.
  induction s as [|x s (piece & Hp & IH)].
  - exists []. split; [done|]. by left.
  - cbn [split]. destruct (N.eqb_spec x 64) as [->|Hx].
    + exists []. split; [done|]. right. by exists s.
    + exists (x :: piece). split; [by constructor|].
      destruct IH as [[-> ->]|(rest & -> & ->)]; [by left|].
      right. by exists rest.
Qed.

Lemma split_second (s d : list N) :
  split 64 s !! 1%nat = Some d ↔
  ∃ l tail, s = l ++ 64%N :: d ++ tail
    ∧ Forall (λ c, c ≠ 64%N) l ∧ Forall (λ c, c ≠ 64%N) d
    ∧ (tail = [] ∨ ∃ t, tail = 64%N :: t).
Proof.
  split.
  - destruct (split_first s) as (l & Hl & [[-> ->]|(rest & -> & ->)]); [done|].
    cbn [lookup list_lookup].
    destruct (split_first rest) as (p & Hp & [[-> ->]|(rest' & -> & ->)]).
    + intros [= <-]. exists l, []. rewrite app_nil_r. split_and!; auto.
    + intros [= <-]. exists l, (64%N :: rest'). split_and!; eauto.
  - intros (l & tail & -> & Hl & Hd & Ht). rewrite split_at_prefix by done.
    cbn [lookup list_lookup]. destruct Ht as [->|(t & ->)].
    + by rewrite app_nil_r, split_no_at.
    + by rewrite split_at_prefix.
Qed.

(** X22. [validateEmailDomain] looks only at the text between the first
    and the second at sign: an address is accepted exactly when that text is
    one of the allowed domains (the school's domain when none are given),
    whatever follows a second at sign, and an address without an at sign is
    refused. *)
Theorem validateEmailDomain_accepts (email : list N)
    (allowedDomains : option (list (list N))) :
  validateEmailDomain email allowedDomains = Return true ↔
  ∃ l d tail, email = l ++ 64%N :: d ++ tail
    ∧ Forall (λ c, c ≠ 64%N) l ∧ Forall (λ c, c ≠ 64%N) d
    ∧ (tail = [] ∨ ∃ t, tail = 64%N :: t)
    ∧ d ∈ default [lit "wbscodingschool.com"] allowedDomains.
Proof.
  unfold validateEmailDomain. cbn zeta.
  generalize (default [lit "wbscodingschool.com"] allowedDomains).
  intros allowed. split.
  - case_bool_decide as H; [|done]. intros _.
    apply list_elem_of_fmap in H as (d & Hd & Hin).
    apply split_second in Hd as (l & tail & ? & ? & ? & ?).
    by exists l, d, tail.
  - intros (l & d & tail & He & Hl & Hd & Ht & Hin).
    assert (split 64 email !! 1%nat = Some d) as ->
      by (apply split_second; by exists l, tail).
    rewrite bool_decide_true; [done|]. by apply list_elem_of_fmap_2.
Qed.

(* ===================================================================== *)
(** ** The notes: [createNote] and [readNotes]                            *)
(* ===================================================================== *)

Lemma bind_run {A B : Type} (m : Call A) (f : A → Call B) (s : session) :
  (m ≫= f) s
  = match m s with
    | (Done a, s') => f a s'
    | (Failed t, s') => (Failed t, s')
    end.
Proof. reflexivity. Qed.

Lemma blank_outcome (name : string) (x : value) (s : session) :
  blank name x s
  = match field_state_of x with
    | Missing => (Done true, s)
    | NotText => (Failed (PlainError (lit name ++ lit ".trim is not a function")), s)
    | Text _ => (Done false, s)
    end.
Proof.
  unfold blank, field_state_of. destruct (truthy x); cbn [negb]; [|done].
  destruct x as [| | | |t|]; try done. by destruct (nonempty (trim t)).
Qed.

Lemma field_state_Text (x : value) (t : list N) :
  field_state_of x = Text t → trimmed x = t ∧ ∃ raw, x = VStr raw.
Proof.
  unfold field_state_of. destruct (negb _); [done|]. destruct x; try done.
  cbn [trimmed]. destruct (nonempty _); [|done]. intros [= <-]. eauto.
Qed.

(** [createNote] in closed form: the first failing check, else the fate of
    the write, else the fate of the read of the new document. *)
Lemma createNote_outcome (data : gmap (list N) value) (id : list N)
    (serverTime : value) (s : session) :
  createNote data id serverTime s
  = match note_fault data with
    | Some t =>
        (Failed (wrapped "Failed to create note" t),
         with_line (lit "Error creating note:") (message_of t) s)
    | None =>
        let s1 := with_line ([0x270D; 0xFE0F]%N ++ lit " Creating note:")
                    (trimmed (get data (lit "title"))) s in
        let w2 := record (OpAdd (lit "notes")) (db s1) in
        match write_faults (db s) with
        | Some e :: rest =>
            (Failed (wrapped "Failed to create note" (PlainError e)),
             with_line (lit "Error creating note:") e
               (Session (World (store w2) (auditLogs w2) rest (ops w2) (console w2))
                        (read_faults s)))
        | faults =>
            let docs := documents (db s) (lit "notes")
                        ++ [(id, noteData data serverTime)] in
            let w3 := record (OpGet (lit "notes") id)
                        (World (<[lit "notes" := docs]> (store w2)) (auditLogs w2)
                               (tail faults) (ops w2) (console w2)) in
            match read_faults s with
            | Some e :: rest =>
                (Failed (wrapped "Failed to create note" (PlainError e)),
                 with_line (lit "Error creating note:") e (Session w3 rest))
            | answered =>
                (Done {| create_success := true;
                         create_note := with_id id (default ∅ (find_doc id docs));
                         create_message := lit "Note created successfully" |},
                 Session w3 (tail answered))
            end
        end
    end.
Proof.
  unfold createNote, catching, note_fault.
  rewrite bind_run, blank_outcome.
  destruct (field_state_of (get data (lit "title"))) as [| |t] eqn:Et; try done.
  rewrite bind_run. cbn [mret Call_ret]. rewrite bind_run, blank_outcome.
  destruct (field_state_of (get data (lit "content"))) as [| |c] eqn:Ec; try done.
  apply field_state_Text in Et as [Et _], Ec as [Ec _].
  rewrite bind_run. cbn [mret Call_ret]. rewrite bind_run, Et, Ec.
  case_bool_decide; [done|]. cbn [mret Call_ret]. rewrite bind_run.
  case_bool_decide; [done|]. cbn [mret Call_ret]. rewrite bind_run.
  cbn [console_line]. rewrite bind_run. unfold notes_add.
  cbn [record write_faults store auditLogs ops console db read_faults].
  destruct (write_faults (db s)) as [|[e|] rest] eqn:Ef; try done.
  all: rewrite bind_run; unfold note_get, documents, record, with_line, noteData;
    cbn [store auditLogs write_faults ops console mret Call_ret default tail
         db read_faults];
    rewrite lookup_insert_eq; cbn [default]; subst;
    by destruct (read_faults s) as [|[e|] rest'].
Qed.

Lemma find_doc_elem (id : list N) (docs : list (list N * gmap (list N) value))
    (d : gmap (list N) value) :
  find_doc id docs = Some d → (id, d) ∈ docs.
Proof.
  induction docs as [|[i x] docs IH]; [done|]. cbn [find_doc].
  case_bool_decide as E; [intros [= ->]; subst; left|intros; right; auto].
Qed.

Lemma find_doc_app (id : list N) (docs : list (list N * gmap (list N) value))
    (d : gmap (list N) value) :
  find_doc id (docs ++ [(id, d)])
  = match find_doc id docs with Some x => Some x | None => Some d end.
Proof.
  induction docs as [|[i x] docs IH]; cbn [app find_doc].
  - by rewrite bool_decide_true.
  - by case_bool_decide.
Qed.

(** [readNotes] in closed form: the fate of the read decides. *)
Lemma readNotes_outcome (s : session) :
  readNotes s
  = let s1 := with_line ([0xD83D; 0xDCD6]%N ++ lit " Reading notes...") [] s in
    match read_faults s with
    | Some e :: rest =>
        (Failed (HttpsError (lit "internal")
                   (if nonempty e then e else lit "Failed to read notes")),
         with_line (lit "Error reading notes:") e (Session (db s1) rest))
    | answered =>
        (Done {| read_success := true;
                 read_notes := (λ doc, with_id doc.1 doc.2)
                                 <$> documents (db s) (lit "notes");
                 read_count := length (documents (db s) (lit "notes")) |},
         Session (db s1) (tail answered))
    end.
Proof.
  unfold readNotes, catching. rewrite bind_run. cbn [console_line].
  rewrite bind_run. unfold notes_get, documents, with_line.
  cbn [store mret Call_ret db read_faults].
  destruct (read_faults s) as [|[e|] rest]; try done.
  all: by rewrite length_fmap.
Qed.

Lemma note_fault_None (data : gmap (list N) value) (title content : list N) :
  get data (lit "title") = VStr title →
  get data (lit "content") = VStr content →
  (3 ≤ length (trim title))%nat →
  (10 ≤ length (trim content))%nat →
  note_fault data = None.
Proof.
  intros Ht Hc Lt Lc. unfold note_fault, field_state_of. rewrite Ht, Hc.
  destruct title as [|a title']; [vm_compute in Lt; lia|].
  destruct content as [|b content']; [vm_compute in Lc; lia|].
  cbn [truthy negb].
  destruct (trim (a :: title')) as [|x1 t1]; [cbn in Lt; lia|].
  destruct (trim (b :: content')) as [|x2 t2]; [cbn in Lc; lia|].
  cbn [nonempty]. rewrite !bool_decide_false; [done|lia|lia].
Qed.

(** X23. Whatever the request holds and whatever the store does to the
    write and to the read, a failure of [createNote] reaches the caller as
    an [HttpsError] whose code is invalid-argument or internal, and a result
    reports success. *)
Theorem createNote_failure_codes (data : gmap (list N) value) (id : list N)
    (serverTime : value) (s : session) :
  match (createNote data id serverTime s).1 with
  | Done r => create_success r = true
              ∧ create_message r = lit "Note created successfully"
  | Failed t => ∃ message, t = HttpsError (lit "invalid-argument") message
                           ∨ t = HttpsError (lit "internal") message
  end.
Proof.
  rewrite createNote_outcome. destruct (note_fault data) as [t|] eqn:E.
  - cbn [fst]. unfold note_fault in E.
    repeat match type of E with
           | match ?x with _ => _ end = _ => destruct x
           | (if ?x then _ else _) = _ => destruct x
           end; try done; injection E as <-; cbn [wrapped]; eauto.
  - cbn zeta. destruct (write_faults (db s)) as [|[e|] rest];
      destruct (read_faults s) as [|[e'|] rest']; cbn [fst wrapped]; eauto.
Qed.

(** X24. A request that [createNote] turns down as an invalid argument
    leaves the store, the log of store operations and the pending faults of
    writes and reads as they were; the only trace is the line on the
    console. *)
Theorem createNote_invalid_argument_keeps_store (data : gmap (list N) value)
    (id : list N) (serverTime : value) (s : session) (message : list N) :
  (createNote data id serverTime s).1
    = Failed (HttpsError (lit "invalid-argument") message) →
  store (db (createNote data id serverTime s).2) = store (db s)
  ∧ ops (db (createNote data id serverTime s).2) = ops (db s)
  ∧ write_faults (db (createNote data id serverTime s).2) = write_faults (db s)
  ∧ console (db (createNote data id serverTime s).2)
    = console (db s) ++ [(lit "Error creating note:", message)]
  ∧ read_faults (createNote data id serverTime s).2 = read_faults s.
Proof.
  rewrite createNote_outcome. destruct (note_fault data) as [t|] eqn:E.
  - cbn [fst snd with_line store ops write_faults console db read_faults]. intros Ht.
    destruct t as [m|c m]; cbn [wrapped] in Ht.
    + injection Ht as Hc _. by vm_compute in Hc.
    + by injection Ht as -> ->.
  - cbn zeta. destruct (write_faults (db s)) as [|[e|] rest];
      destruct (read_faults s) as [|[e'|] rest']; cbn [fst wrapped]; try done.
Qed.

Lemma createNote_invalid_argument_keeps_store_witness :
  store (db (createNote {[ lit "title" := VStr (lit "Hi") ]} (lit "n1") VNull
               (answering (world_of []))).2)
  = store (db (answering (world_of []))).
Proof.
  refine (proj1 (createNote_invalid_argument_keeps_store
                   {[ lit "title" := VStr (lit "Hi") ]} (lit "n1") VNull
                   (answering (world_of [])) (lit "Content is required") _)).
  by vm_compute.
Defined.

(** X25. A title that is truthy but not a string (a number, an object) is
    not reported as an invalid argument: calling [trim] on it throws a
    TypeError, which the handler turns into an internal error; the store is
    not touched. *)
Theorem createNote_title_not_a_string (data : gmap (list N) value) (id : list N)
    (serverTime : value) (s : session) :
  truthy (get data (lit "title")) = true →
  (∀ t, get data (lit "title") ≠ VStr t) →
  (createNote data id serverTime s).1
    = Failed (HttpsError (lit "internal") (lit "title.trim is not a function"))
  ∧ store (db (createNote data id serverTime s).2) = store (db s)
  ∧ ops (db (createNote data id serverTime s).2) = ops (db s).
Proof.
  intros Ht Hs. rewrite createNote_outcome. unfold note_fault, field_state_of.
  rewrite Ht. cbn [negb]. destruct (get data (lit "title")) as [| | | |t|]; try done.
  by destruct (Hs t).
Qed.

Lemma createNote_title_not_a_string_witness :
  (createNote {[ lit "title" := VNum (of_Z 5) ]} (lit "n1") VNull
     (answering (world_of []))).1
  = Failed (HttpsError (lit "internal") (lit "title.trim is not a function")).
Proof.
  refine (proj1 (createNote_title_not_a_string
                   {[ lit "title" := VNum (of_Z 5) ]} (lit "n1") VNull
                   (answering (world_of [])) _ _)).
  - by vm_compute.
  - intros t. by vm_compute.
Defined.

(** X26. A valid request whose write the store accepts adds one document
    to the notes, holding the trimmed title and content, both timestamps and
    the status active; no other collection changes, and the store
    operations are the write and the fetch of the new document. When that
    fetch is answered the call returns the document with its id; when the
    store rejects the fetch the call fails as an internal error with the
    store's message, although the note is stored. *)
Theorem createNote_stores_trimmed_note (data : gmap (list N) value) (id : list N)
    (serverTime : value) (s : session) (title content : list N) :
  get data (lit "title") = VStr title →
  get data (lit "content") = VStr content →
  (3 ≤ length (trim title))%nat →
  (10 ≤ length (trim content))%nat →
  (∀ e, head (write_faults (db s)) ≠ Some (Some e)) →
  find_doc id (documents (db s) (lit "notes")) = None →
  let stored : gmap (list N) value :=
    list_to_map [ (lit "title", VStr (trim title));
                  (lit "content", VStr (trim content));
                  (lit "createdAt", serverTime);
                  (lit "updatedAt", serverTime);
                  (lit "status", VStr (lit "active")) ] in
  let after := (createNote data id serverTime s).2 in
  documents (db after) (lit "notes")
    = documents (db s) (lit "notes") ++ [(id, stored)]
  ∧ (∀ c, c ≠ lit "notes" → documents (db after) c = documents (db s) c)
  ∧ ops (db after) = ops (db s) ++ [OpAdd (lit "notes"); OpGet (lit "notes") id]
  ∧ read_faults after = tail (read_faults s)
  ∧ match head (read_faults s) with
    | Some (Some e) =>
        (createNote data id serverTime s).1
        = Failed (HttpsError (lit "internal")
                    (if nonempty e then e else lit "Failed to create note"))
    | _ =>
        ∃ r, (createNote data id serverTime s).1 = Done r
             ∧ create_success r = true
             ∧ create_note r = stored ∪ {[ lit "id" := VStr id ]}
    end.
Proof.
  intros Ht Hc Lt Lc Hf Hid stored after. subst after. rewrite createNote_outcome.
  rewrite (note_fault_None data title content) by done.
  cbn zeta. unfold noteData. rewrite Ht, Hc. cbn [trimmed]. fold stored.
  rewrite find_doc_app, Hid. cbn [default].
  destruct (write_faults (db s)) as [|[e|] rest] eqn:Ef; [|by destruct (Hf e)|];
    destruct (read_faults s) as [|[e'|] rest'];
    unfold documents, record, with_line;
    cbn [fst snd store ops db read_faults head tail wrapped];
    rewrite lookup_insert_eq; cbn [default];
    (split; [done|]);
    (split; [by intros c Hn; rewrite lookup_insert_ne|]);
    (split; [by rewrite <- app_assoc|]);
    (split; [done|]); eauto.
Qed.

Lemma createNote_stores_trimmed_note_witness :
  (∃ r, (createNote note_payload (lit "n1") (VNum (of_Z 1000))
           (answering (world_of []))).1 = Done r
        ∧ create_success r = true
        ∧ create_note r
          = list_to_map [ (lit "title", VStr (trim (lit "  Shopping ")));
                          (lit "content", VStr (trim (lit "Milk, bread and eggs ")));
                          (lit "createdAt", VNum (of_Z 1000));
                          (lit "updatedAt", VNum (of_Z 1000));
                          (lit "status", VStr (lit "active")) ]
            ∪ {[ lit "id" := VStr (lit "n1") ]})
  ∧ (createNote note_payload (lit "n1") (VNum (of_Z 1000))
       (unreadable (world_of []))).1
    = Failed (HttpsError (lit "internal") (lit "deadline exceeded")).
Proof.
  split.
  - refine (proj2 (proj2 (proj2 (proj2
      (createNote_stores_trimmed_note note_payload (lit "n1") (VNum (of_Z 1000))
         (answering (world_of [])) (lit "  Shopping ") (lit "Milk, bread and eggs ")
         _ _ _ _ _ _))))).
    + by vm_compute.
    + by vm_compute.
    + vm_compute. lia.
    + vm_compute. lia.
    + intros e. by vm_compute.
    + by vm_compute.
  - refine (proj2 (proj2 (proj2 (proj2
      (createNote_stores_trimmed_note note_payload (lit "n1") (VNum (of_Z 1000))
         (unreadable (world_of [])) (lit "  Shopping ") (lit "Milk, bread and eggs ")
         _ _ _ _ _ _))))).
    + by vm_compute.
    + by vm_compute.
    + vm_compute. lia.
    + vm_compute. lia.
    + intros e. by vm_compute.
    + by vm_compute.
Defined.

(** X27. A valid request whose write the store rejects fails as an
    internal error carrying the store's message (a fixed text when that is
    empty); nothing is stored, the write is the only store operation, and
    no read is made. *)
Theorem createNote_write_rejected (data : gmap (list N) value) (id : list N)
    (serverTime : value) (s : session) (title content e : list N)
    (rest : list (option (list N))) :
  get data (lit "title") = VStr title →
  get data (lit "content") = VStr content →
  (3 ≤ length (trim title))%nat →
  (10 ≤ length (trim content))%nat →
  write_faults (db s) = Some e :: rest →
  (createNote data id serverTime s).1
    = Failed (HttpsError (lit "internal")
                (if nonempty e then e else lit "Failed to create note"))
  ∧ store (db (createNote data id serverTime s).2) = store (db s)
  ∧ ops (db (createNote data id serverTime s).2) = ops (db s) ++ [OpAdd (lit "notes")]
  ∧ write_faults (db (createNote data id serverTime s).2) = rest
  ∧ read_faults (createNote data id serverTime s).2 = read_faults s.
Proof.
  intros Ht Hc Lt Lc Hf. rewrite createNote_outcome.
  rewrite (note_fault_None data title content) by done.
  cbn zeta. rewrite Hf. done.
Qed.

Lemma createNote_write_rejected_witness :
  (createNote note_payload (lit "n1") VNull (answering failing_world)).1
  = Failed (HttpsError (lit "internal") (lit "unavailable")).
Proof.
  refine (proj1 (createNote_write_rejected note_payload (lit "n1") VNull
                   (answering failing_world)
                   (lit "  Shopping ") (lit "Milk, bread and eggs ")
                   (lit "unavailable") [] _ _ _ _ _)).
  - by vm_compute.
  - by vm_compute.
  - vm_compute. lia.
  - vm_compute. lia.
  - reflexivity.
Defined.

(** X28. After a [createNote] that returned, a following [readNotes]
    depends on the fate of its read alone: when the store answers, it
    returns a list that holds the created note and counts one note more
    than there were before, and leaves the store as [createNote] left it;
    when the store rejects the read, it fails as an internal error. *)
Theorem createNote_then_readNotes (data : gmap (list N) value) (id : list N)
    (serverTime : value) (s s' : session) (r : CreateNoteResponse) :
  createNote data id serverTime s = (Done r, s') →
  match head (read_faults s') with
  | Some (Some e) =>
      (readNotes s').1
      = Failed (HttpsError (lit "internal")
                  (if nonempty e then e else lit "Failed to read notes"))
  | _ =>
      ∃ rr s'',
        readNotes s' = (Done rr, s'')
        ∧ read_count rr = S (length (documents (db s) (lit "notes")))
        ∧ create_note r ∈ read_notes rr
        ∧ store (db s'') = store (db s')
  end.
Proof.
  rewrite createNote_outcome. destruct (note_fault data); [done|]. cbn zeta.
  rewrite find_doc_app.
  set (docs := documents (db s) (lit "notes") ++ [(id, noteData data serverTime)]).
  assert (∃ d, match find_doc id (documents (db s) (lit "notes")) with
               | Some x => Some x | None => Some (noteData data serverTime) end
               = Some d ∧ (id, d) ∈ docs) as (d & -> & Hd).
  { destruct (find_doc id (documents (db s) (lit "notes"))) as [x|] eqn:E.
    - exists x. split; [done|]. apply elem_of_app. left. by apply find_doc_elem.
    - eexists. split; [done|]. apply elem_of_app. right. by left. }
  assert (∀ a f o c, documents (record (OpGet (lit "notes") id)
            (World (<[lit "notes" := docs]> (store (db s))) a f o c))
            (lit "notes") = docs) as Hdocs.
  { intros. unfold documents. cbn [record store]. by rewrite lookup_insert_eq. }
  assert (∀ (w : world) (faults : list (option (list N))),
            documents w (lit "notes") = docs →
            match head faults with
            | Some (Some e) =>
                (readNotes (Session w faults)).1
                = Failed (HttpsError (lit "internal")
                            (if nonempty e then e else lit "Failed to read notes"))
            | _ =>
                ∃ rr s'',
                  readNotes (Session w faults) = (Done rr, s'')
                  ∧ read_count rr = S (length (documents (db s) (lit "notes")))
                  ∧ with_id id d ∈ read_notes rr
                  ∧ store (db s'') = store w
            end) as Hread.
  { intros w faults Hw. rewrite readNotes_outcome. cbn zeta. cbn [read_faults db].
    destruct faults as [|[e|] faults]; cbn [head fst]; [|done|].
    all: eexists _, _; (split; [reflexivity|]);
      cbn [read_count read_notes db with_line store]; rewrite Hw;
      (split; [unfold docs; rewrite length_app; cbn [length]; lia|]);
      (split; [|done]); apply list_elem_of_fmap; by exists (id, d). }
  destruct (write_faults (db s)) as [|[e|] rest]; [|done|];
    (destruct (read_faults s) as [|[e'|] faults]; [|done|]);
    intros [= <- <-]; cbn [create_note default]; apply Hread, Hdocs.
Qed.

Lemma createNote_then_readNotes_witness :
  ∃ r s',
    createNote note_payload (lit "n1") VNull (answering (world_of [])) = (Done r, s')
    ∧ ∃ rr s'', readNotes s' = (Done rr, s'') ∧ read_count rr = 1%nat.
Proof.
  assert (∃ r s', createNote note_payload (lit "n1") VNull (answering (world_of []))
                  = (Done r, s') ∧ head (read_faults s') = None)
    as (r & s' & E & Hanswered).
  { eexists _, _. split; by vm_compute. }
  exists r, s'. split; [exact E|].
  pose proof (createNote_then_readNotes _ _ _ _ _ _ E) as H.
  rewrite Hanswered in H. destruct H as (rr & s'' & Hr & Hc & _).
  exists rr, s''. split; [exact Hr|exact Hc].
Defined.

(** X29. [readNotes] never writes, and what it answers is decided by the
    fate of its one read. When the store answers, it returns one note per
    document of the collection, in order, each with the fields of its
    document; the note's [id] is the document's id unless the document has
    a field [id] of its own, which then takes its place. When the store
    rejects the read, it fails as an internal error carrying the store's
    message (a fixed text when that is empty). *)
Theorem readNotes_result (s : session) :
  store (db (readNotes s).2) = store (db s)
  ∧ write_faults (db (readNotes s).2) = write_faults (db s)
  ∧ read_faults (readNotes s).2 = tail (read_faults s)
  ∧ match head (read_faults s) with
    | Some (Some e) =>
        (readNotes s).1
        = Failed (HttpsError (lit "internal")
                    (if nonempty e then e else lit "Failed to read notes"))
    | _ =>
        ∃ rr,
          (readNotes s).1 = Done rr
          ∧ read_success rr = true
          ∧ read_count rr = length (documents (db s) (lit "notes"))
          ∧ length (read_notes rr) = read_count rr
          ∧ ∀ (i : nat) (docId : list N) (d : gmap (list N) value),
              documents (db s) (lit "notes") !! i = Some (docId, d) →
              ∃ note, read_notes rr !! i = Some note
                ∧ note !! lit "id" = Some (default (VStr docId) (d !! lit "id"))
                ∧ ∀ k, k ≠ lit "id" → note !! k = d !! k
    end.
Proof.
  rewrite readNotes_outcome. cbn zeta.
  assert (∀ (i : nat) (docId : list N) (d : gmap (list N) value),
            documents (db s) (lit "notes") !! i = Some (docId, d) →
            ∃ note, ((λ doc, with_id doc.1 doc.2)
                       <$> documents (db s) (lit "notes")) !! i = Some note
              ∧ note !! lit "id" = Some (default (VStr docId) (d !! lit "id"))
              ∧ ∀ k, k ≠ lit "id" → note !! k = d !! k) as Hnotes.
  { intros i docId d Hi. exists (with_id docId d). split.
    - by rewrite list_lookup_fmap, Hi.
    - unfold with_id. split.
      + destruct (d !! lit "id") as [v|] eqn:E.
        * by erewrite lookup_union_Some_l.
        * rewrite lookup_union_r by done. by rewrite lookup_singleton_eq.
      + intros k Hk. destruct (d !! k) as [v|] eqn:E.
        * by erewrite lookup_union_Some_l.
        * rewrite lookup_union_r by done. by rewrite lookup_singleton_ne. }
  destruct (read_faults s) as [|[e|] rest];
    cbn [fst snd head tail with_line db store write_faults read_faults];
    (split; [done|]); (split; [done|]); (split; [done|]); [|done|].
  all: eexists; (split; [reflexivity|]);
    cbn [read_success read_count read_notes];
    (split; [done|]); (split; [done|]); (split; [by rewrite length_fmap|done]).
Qed.
